(** * incus-osd/internal/tui: the console dashboard

    A shallow embedding of [incus-osd/internal/tui/tui.go]: the footer
    composer [wrapFooterText], the address filter [getIPAddresses], the log
    sink [Write], the frame engine [redrawScreen], the singleton accessor
    [GetTUI] with its constructor [newTUI], and the body of the redraw loop
    started by [Run].

    Go values are modelled as follows.
    - [string] is Go's [string]: a sequence of bytes; [len] is the byte length.
    - [int] is [Z].  Lengths of strings never come near 2^63, so sums of
      lengths are written without wrap-around; the loop counter of [Run] is
      the one integer that is incremented without bound, and its wrap-around
      is written out.
    - a pointer or interface field that may be nil is an [option].
    - a call that would dereference nil is [Panic].
    - the outside world (release query, state store, interfaces, clock,
      devices) is an explicit environment argument. *)

From Stdlib Require Import ZArith Lia Ascii.
From stdpp Require Import base list strings pretty gmap sorting.

Local Open Scope Z_scope.

(** ** Go's [strings] and [slices] packages, as far as the file uses them *)

Definition len (s : string) : Z := Z.of_nat (String.length s).

Module GoStrings.

(** [strings.HasPrefix(s, prefix)] *)
Definition HasPrefix (s prefix : string) : bool := String.prefix prefix s.

(** [strings.Contains(s, substr)] *)
Fixpoint Contains (s substr : string) : bool :=
  if String.prefix substr s then true
  else match s with
       | EmptyString => false
       | String _ s' => Contains s' substr
       end.

(** [strings.Split(s, " ")]: the pieces between single spaces; n spaces
    give n+1 pieces, some of them possibly empty. *)
Fixpoint SplitSpace (s : string) : list string :=
  match s with
  | EmptyString => [EmptyString]
  | String c s' =>
      if Ascii.eqb c " "%char then EmptyString :: SplitSpace s'
      else match SplitSpace s' with
           | w :: ws => String c w :: ws
           | [] => [String c EmptyString]
           end
  end.

(** [strings.Join(elems, sep)] *)
Definition Join (elems : list string) (sep : string) : string :=
  String.concat sep elems.

End GoStrings.

(** ** The footer composer *)

(** The three variables the loop of [wrapFooterText] updates. *)
Record wrapState := WrapState {
  ret : list string;
  currentLine : string;
  currentLen : Z
}.

(** One iteration of [for _, word := range strings.Split(text, " ")]. *)
Definition wrapStep (maxLineLength : Z) (st : wrapState) (word : string) : wrapState :=
  let st' :=
    if currentLen st + len word >? maxLineLength
    then WrapState (ret st ++ [currentLine st]) "" 0
    else st in
  WrapState (ret st') (currentLine st' +:+ word +:+ " ") (currentLen st' + len word + 1).

Definition wrapInit (label : string) : wrapState :=
  WrapState [] ("[green]" +:+ label +:+ ":[white] ") (len label + 2).

Definition wrapFooterText (label text : string) (maxLineLength : Z) : list string :=
  let st := fold_left (wrapStep maxLineLength) (GoStrings.SplitSpace text) (wrapInit label) in
  let ret :=
    if len (currentLine st) >? 0 then ret st ++ [currentLine st] else ret st in
  rev ret.

(** ** Errors, fallible calls and nil dereferences *)

(** A Go [error] is used by this file only through [err.Error()]. *)
Definition error := string.

(** The outcome of a Go call that dereferences pointers of the receiver. *)
Inductive result (A : Type) : Type :=
  | Ok (a : A)
  | Panic.
Arguments Ok {A} a.
Arguments Panic {A}.

(** ** The address filter *)

(** One iteration of [for _, addr := range addrs]; [addr] stands for
    [addr.String()]. *)
Definition ipStep (ret : list string) (addr : string) : list string :=
  if String.eqb addr "" || String.eqb addr "127.0.0.1/8"
     || String.eqb addr "::1/128" || GoStrings.HasPrefix addr "fe80:"
  then ret
  else ret ++ [addr].

(** [getIPAddresses]; the argument is what [net.InterfaceAddrs()] returned. *)
Definition getIPAddresses (InterfaceAddrs : list string + error) : list string :=
  match InterfaceAddrs with
  | inr err => [err]
  | inl addrs => fold_left ipStep addrs []
  end.

(** ** The log sink *)

(** What an [io.Writer] does with one [Write]: it takes all the bytes, or it
    takes the first [n] of them and reports an error. *)
Inductive writeOutcome :=
  | WriteOk
  | WriteErr (n : nat) (err : error).

(** [fmt.Fprint(w, s)] on a writer whose content so far is [buf]: the new
    content, the count and the error. *)
Definition Fprint (o : writeOutcome) (buf s : string) : string * (Z * option error) :=
  match o with
  | WriteOk => (buf +:+ s, (len s, None))
  | WriteErr n err =>
      let accepted := String.substring 0 n s in
      (buf +:+ accepted, (len accepted, Some err))
  end.

(** The colour directive chosen by [Write]. *)
Definition colorize (s : string) : string :=
  if GoStrings.Contains s "level=WARN" then "[orange]" +:+ s +:+ "[white]"
  else if GoStrings.Contains s "level=ERROR" then "[red]" +:+ s +:+ "[white]"
  else s.

(** ** The widgets of tview and tcell, as far as tui.go drives them *)

Inductive Align := AlignLeft | AlignCenter | AlignRight.
Inductive Color := ColorWhite.

(** One [Frame.AddText(text, header, align, color)]. *)
Record frameText := FrameText {
  ftText : string;
  ftHeader : bool;
  ftAlign : Align;
  ftColor : Color
}.

(** The body of the frame is a pointer to a primitive owned elsewhere; the
    only one tui.go ever attaches is the tui's own [textView]. *)
Inductive Primitive := TextViewPrimitive.

Record Frame := MkFrame {
  frameTexts : list frameText;
  framePrimitive : option Primitive;
  frameBorders : Z * Z * Z * Z * Z * Z
}.

Definition NewFrame (p : option Primitive) : Frame := MkFrame [] p (1, 1, 1, 1, 1, 1).
Definition SetBorders (top bottom header footer left right : Z) (f : Frame) : Frame :=
  MkFrame (frameTexts f) (framePrimitive f) (top, bottom, header, footer, left, right).
Definition Clear (f : Frame) : Frame :=
  MkFrame [] (framePrimitive f) (frameBorders f).
Definition AddText (text : string) (header : bool) (align : Align) (color : Color)
    (f : Frame) : Frame :=
  MkFrame (frameTexts f ++ [FrameText text header align color])
          (framePrimitive f) (frameBorders f).
Definition SetPrimitive (p : Primitive) (f : Frame) : Frame :=
  MkFrame (frameTexts f) (Some p) (frameBorders f).

(** The log pane: its text so far and the settings [newTUI] gives it.  The
    changed-handler of [newTUI] asks the application for a repaint from a
    goroutine of its own; that repaint is not part of [Write]. *)
Record TextView := MkTextView {
  tvBuffer : string;
  tvDynamicColors : bool;
  tvScrollable : bool;
  tvWordWrap : bool;
  tvBorder : bool
}.

(** [tcell.Screen], of which tui.go asks only [Size()]. *)
Record Screen := MkScreen { Size : Z * Z }.

(** [tview.Pages]: the named pages, bottom first.  The page "frame" is the
    tui's own frame. *)
Definition Pages := list string.

(** [tview.Application]: its screen and root are the tui's own [screen] and
    [pages]; what is recorded is the number of repaints asked for. *)
Record Application := MkApplication { appDraws : nat }.

Definition Draw (a : Application) : Application := MkApplication (S (appDraws a)).

(** [type tui struct] *)
Record tui := MkTui {
  app : option Application;
  frame : option Frame;
  pages : option Pages;
  screen : option Screen;
  textView : option TextView
}.

(** [(t *tui) Write(p)]: [body] and [mirror] are what the text view and
    [os.Stdout] do with the write they receive; [stdout] is the text sent to
    [os.Stdout] so far.  Returns the tui, the new [stdout] and [(n, err)]. *)
Definition Write (body mirror : writeOutcome) (t : tui) (stdout : string) (p : string)
    : result (tui * string * (Z * option error)) :=
  let s := colorize p in
  match textView t with
  | None => Panic
  | Some tv =>
      let '(buf, (num, err)) := Fprint body (tvBuffer tv) s in
      let tv' := MkTextView buf (tvDynamicColors tv) (tvScrollable tv)
                            (tvWordWrap tv) (tvBorder tv) in
      let t' := MkTui (app t) (frame t) (pages t) (screen t) (Some tv') in
      match err with
      | Some e => Ok (t', stdout, (num, Some e))
      | None =>
          let '(out, r) := Fprint mirror stdout p in
          Ok (t', out, r)
      end
  end.

(** ** The clock *)

(** [time.Now().UTC()], broken down into the fields the layout prints. *)
Record Time := MkTime {
  Year : Z;
  Month : Z;
  Day : Z;
  Hour : Z;
  Minute : Z
}.

(** Decimal digits of [x], padded with zeros up to [width], as the time
    package prints a field. *)
Definition appendInt (x : Z) (width : nat) : string :=
  let digits := pretty (Z.abs x) in
  let zeros := String.concat "" (replicate (width - String.length digits) "0") in
  (if x <? 0 then "-" else "") +:+ zeros +:+ digits.

(** [t.Format("2006-01-02 15:04 UTC")] *)
Definition Format (t : Time) : string :=
  appendInt (Year t) 4 +:+ "-" +:+ appendInt (Month t) 2 +:+ "-" +:+ appendInt (Day t) 2
  +:+ " " +:+ appendInt (Hour t) 2 +:+ ":" +:+ appendInt (Minute t) 2 +:+ " UTC".

(** ** The frame engine *)

(** [state.Application] and [state.State], of which the redraw reads the
    version of each application. *)
Record StateApplication := MkApp { Version : string }.
Record State := MkState { Applications : gmap string StateApplication }.

(** [for app, info := range s.Applications] visits every entry once, in an
    order Go leaves unspecified: an iteration order maps each map to the
    sequence in which its entries are visited. *)
Definition MapIter := gmap string StateApplication → list (string * StateApplication).

Definition validIter (iter : MapIter) : Prop :=
  ∀ m, iter m ≡ₚ map_to_list m.

(** The data sources one redraw pulls from. *)
Record Env := MkEnv {
  GetCurrentRelease : string + error;
  LoadOrCreate : State + error;
  InterfaceAddrs : list string + error;
  Now : Time
}.

(** [slices.Sort] on strings: ascending byte-wise order. *)
Definition Sort (l : list string) : list string := merge_sort String.le l.

(** The application list of [redrawScreen], sorted. *)
Definition applicationList (e : Env) (iter : MapIter) : list string :=
  let applications :=
    match LoadOrCreate e with
    | inl s =>
        fold_left (λ acc '(app, info), acc ++ [app +:+ "(" +:+ Version info +:+ ")"])
                  (iter (Applications s)) []
    | inr _ => []
    end in
  Sort applications.

(** [for _, line := range lines { t.frame.AddText(line, false, AlignLeft, ColorWhite) }] *)
Definition addFooter (lines : list string) (f : Frame) : Frame :=
  fold_left (λ f line, AddText line false AlignLeft ColorWhite f) lines f.

Definition redrawScreen (e : Env) (iter : MapIter) (t : tui) : result tui :=
  match frame t with
  | None => Ok t
  | Some f =>
      let incusOSVersion :=
        match GetCurrentRelease e with
        | inl v => v
        | inr err => "[" +:+ err +:+ "]"
        end in
      let applications := applicationList e iter in
      let f := Clear f in
      let f := AddText ("Incus OS " +:+ incusOSVersion) true AlignCenter ColorWhite f in
      let f := AddText (Format (Now e)) true AlignRight ColorWhite f in
      match screen t with
      | None => Panic
      | Some scr =>
          let consoleWidth := fst (Size scr) in
          let f := addFooter (wrapFooterText "IP Address(es)"
                     (GoStrings.Join (getIPAddresses (InterfaceAddrs e)) ", ")
                     consoleWidth) f in
          let f := addFooter (wrapFooterText "Installed application(s)"
                     (GoStrings.Join applications ", ") consoleWidth) f in
          let f := match textView t with
                   | Some _ => SetPrimitive TextViewPrimitive f
                   | None => f
                   end in
          match app t with
          | None => Panic
          | Some a => Ok (MkTui (Some (Draw a)) (Some f) (pages t) (screen t) (textView t))
          end
      end
  end.

(** ** Construction and the singleton *)

(** The terminal multiplexer of the package: the devices it opened. *)
Definition Tty := list string.

(** What opening the consoles and binding a screen to them give.
    [NewTerminfoScreenFromTty] returns a pair, and [newTUI] stores the first
    component before it looks at the second. *)
Record ConsoleEnv := MkConsoleEnv {
  newTtyMultiplexer : list string → Tty + error;
  NewTerminfoScreenFromTty : Tty → option Screen * option error
}.

Definition consolePaths : list string :=
  ["/dev/console"; "/dev/tty1"; "/dev/tty2"; "/dev/tty3"; "/dev/tty4";
   "/dev/tty5"; "/dev/tty6"; "/dev/tty7"].

(** [newTUI]: the instance it built, and the error. *)
Definition newTUI (c : ConsoleEnv) : tui * option error :=
  let ret := MkTui None None None None None in
  match newTtyMultiplexer c consolePaths with
  | inr err => (ret, Some err)
  | inl ttys =>
      let '(scr, err) := NewTerminfoScreenFromTty c ttys in
      let ret := MkTui (app ret) (frame ret) (pages ret) scr (textView ret) in
      match err with
      | Some e => (ret, Some e)
      | None =>
          let tv := MkTextView "" true false true true in
          let fr := SetBorders 0 0 1 1 0 0 (NewFrame None) in
          let pg : Pages := ["frame"] in
          let ap := MkApplication 0 in
          (MkTui (Some ap) (Some fr) (Some pg) scr (Some tv), None)
      end
  end.

(** The instances allocated so far, and the package variable [tuiInstance],
    a pointer into them (nil at start). *)
Record Store := MkStore {
  heap : list tui;
  tuiInstance : option nat
}.

Definition emptyStore : Store := MkStore [] None.

(** [GetTUI]: the returned pointer and error, and the store afterwards. *)
Definition GetTUI (c : ConsoleEnv) (σ : Store) : (option nat * option error) * Store :=
  match tuiInstance σ with
  | None =>
      let '(ret, err) := newTUI c in
      let p := length (heap σ) in
      let σ' := MkStore (heap σ ++ [ret]) (Some p) in
      match err with
      | Some e => ((None, Some e), σ')
      | None => ((Some p, None), σ')
      end
  | Some p => ((Some p, None), σ)
  end.

(** ** The redraw loop of [Run] *)

(** Go's [int] on the 64-bit targets of the daemon: [i++] wraps. *)
Definition wrapInt (z : Z) : Z := (z + 2 ^ 63) mod 2 ^ 64 - 2 ^ 63.

(** What the goroutine does to the outside, in order. *)
Inductive event :=
  | ConsoleWrite (path : string) (data : list Z) (outcome : option error)
  | Redraw
  | Sleep (seconds : Z).

(** What one pass of the loop finds outside: the data sources, the order in
    which the application map is visited, and what [os.WriteFile] would
    return. *)
Record TickEnv := MkTickEnv {
  tickData : Env;
  tickIter : MapIter;
  tickWriteFile : option error
}.

(** The loop variable [i], the instance [t] and the events so far. *)
Record LoopState := MkLoop {
  loopI : Z;
  loopT : tui;
  loopTrace : list event
}.

(** [i%12 == 1]; Go's [%] truncates towards zero, as [Z.rem] does. *)
Definition clearDue (i : Z) : bool := Z.rem i 12 =? 1.

(** One pass of [for i := 0; ; i++ { ... }]. *)
Definition loopBody (te : TickEnv) (st : LoopState) : result LoopState :=
  let trace :=
    if clearDue (loopI st)
    then loopTrace st ++ [ConsoleWrite "/dev/console" [0x1B; 0x63] (tickWriteFile te)]
    else loopTrace st in
  match redrawScreen (tickData te) (tickIter te) (loopT st) with
  | Panic => Panic
  | Ok t' => Ok (MkLoop (wrapInt (loopI st + 1)) t' (trace ++ [Redraw; Sleep 5]))
  end.

(** The first [n] passes; pass number [k] (from 0) finds [world k]. *)
Fixpoint runLoop (world : nat → TickEnv) (n : nat) (st : LoopState) : result LoopState :=
  match n with
  | O => Ok st
  | S n' =>
      match loopBody (world O) st with
      | Panic => Panic
      | Ok st' => runLoop (λ k, world (S k)) n' st'
      end
  end.

(** The state in which the goroutine starts. *)
Definition loopStart (t : tui) : LoopState := MkLoop 0 t [].

(** ** Vocabulary of the properties *)

(** The words [ws], each followed by one space: what the loop of
    [wrapFooterText] appends to a line. *)
Fixpoint spaced (ws : list string) : string :=
  match ws with
  | [] => ""
  | w :: ws' => w +:+ " " +:+ spaced ws'
  end.

(** The opening of the first line: the label between its colour directives. *)
Definition labelPrefix (label : string) : string :=
  "[green]" +:+ label +:+ ":[white] ".

(** A line that is one over-long word of the value and nothing else. *)
Definition loneWord (text : string) (width : Z) (line : string) : Prop :=
  ∃ w, In w (GoStrings.SplitSpace text) ∧ width < len w ∧ (line = w ∨ line = w +:+ " ").

(** The width bound as the specification words it, for a way [measure] of
    counting the characters of a line. *)
Definition footerWithin (measure : string → Z) (label text : string) (width : Z) : Prop :=
  ∀ line, In line (wrapFooterText label text width) →
    measure line ≤ width ∨ loneWord text width line.

(** The three shapes a returned line has, for the words [words] of the value. *)
Inductive lineShape (label : string) (words : list string) (width : Z) (line : string) : Prop :=
  | LabelLine (ws : list string) :
      incl ws words →
      line = labelPrefix label +:+ spaced ws →
      ws = [] ∨ len label + 2 + len (spaced ws) ≤ width + 1 →
      lineShape label words width line
  | ValueLine (ws : list string) :
      ws ≠ [] →
      incl ws words →
      line = spaced ws →
      len line ≤ width + 1 →
      lineShape label words width line
  | LongWordLine (w : string) :
      In w words →
      line = w +:+ " " →
      width < len w →
      lineShape label words width line.

(** The line under construction: what the loop knows about [currentLine]
    and [currentLen] between two words. *)
Definition openLine (label : string) (words : list string) (width : Z) (st : wrapState) : Prop :=
  ∃ ws, incl ws words ∧
    ((currentLine st = labelPrefix label +:+ spaced ws
      ∧ currentLen st = len label + 2 + len (spaced ws)
      ∧ (ws = [] ∨ currentLen st ≤ width + 1))
     ∨ (ws ≠ [] ∧ currentLine st = spaced ws ∧ currentLen st = len (spaced ws)
        ∧ (currentLen st ≤ width + 1 ∨ ∃ w, ws = [w] ∧ width < len w))).

Definition wrapInv (label : string) (words : list string) (width : Z) (st : wrapState) : Prop :=
  (∀ l, In l (ret st) → lineShape label words width l) ∧ openLine label words width st.

(** An address carrying the link-local prefix, as the filter tests it. *)
Definition linkLocal (a : string) : Prop := ∃ rest, a = "fe80:" +:+ rest.

(** The addresses the filter is meant to leave out. *)
Definition excludedAddr (a : string) : Prop :=
  a = "" ∨ a = "127.0.0.1/8" ∨ a = "::1/128" ∨ linkLocal a.

(** [kept] is [candidates] without the excluded entries, the others in
    order and as often as they occur. *)
Inductive Filtered : list string → list string → Prop :=
  | Filtered_nil : Filtered [] []
  | Filtered_drop a candidates kept :
      excludedAddr a → Filtered candidates kept → Filtered (a :: candidates) kept
  | Filtered_keep a candidates kept :
      ¬ excludedAddr a → Filtered candidates kept →
      Filtered (a :: candidates) (a :: kept).

(** A footer text: not a header, left-aligned. *)
Definition footerText (line : string) : frameText :=
  FrameText line false AlignLeft ColorWhite.

(** The footer lines of a label and its values at a width. *)
Definition footerTexts (label : string) (values : list string) (width : Z) : list frameText :=
  footerText <$> wrapFooterText label (GoStrings.Join values ", ") width.

(** The header as the specification words it: product and version,
    left-aligned. *)
Definition headerLeftAligned (version : string) (f : Frame) : Prop :=
  In (FrameText ("Incus OS " +:+ version) true AlignLeft ColorWhite) (frameTexts f).

(** An instance on which a redraw cannot dereference nil: if it has a frame
    it has a screen and an application too. *)
Definition drawable (t : tui) : Prop :=
  is_Some (frame t) → is_Some (screen t) ∧ is_Some (app t).

(** Two instances that differ at most in the number of repaints asked for. *)
Definition sameView (t1 t2 : tui) : Prop :=
  frame t1 = frame t2 ∧ pages t1 = pages t2 ∧ screen t1 = screen t2
  ∧ textView t1 = textView t2 ∧ (is_Some (app t1) ↔ is_Some (app t2)).

(** The calls [GetTUI(); GetTUI(); ...], each finding its own consoles. *)
Fixpoint GetTUIs (cs : list ConsoleEnv) (σ : Store)
    : list (option nat * option error) * Store :=
  match cs with
  | [] => ([], σ)
  | c :: cs' =>
      let '(r, σ') := GetTUI c σ in
      let '(rs, σ'') := GetTUIs cs' σ' in
      (r :: rs, σ'')
  end.

(** The events of one pass of the redraw loop, for the value [i] of the
    loop variable. *)
Definition tickEvents (i : Z) (te : TickEnv) : list event :=
  (if clearDue i
   then [ConsoleWrite "/dev/console" [0x1B; 0x63] (tickWriteFile te)]
   else [])
  ++ [Redraw; Sleep 5].

(** The events of a pass, as the specification describes them: a redraw and
    a sleep, with or without the two-byte clear sequence in front. *)
Inductive tickSegment : list event → Prop :=
  | PlainTick : tickSegment [Redraw; Sleep 5]
  | ClearTick outcome :
      tickSegment [ConsoleWrite "/dev/console" [0x1B; 0x63] outcome; Redraw; Sleep 5].

Definition isClear (ev : event) : bool :=
  match ev with
  | ConsoleWrite _ _ _ => true
  | _ => false
  end.

(** The number of writes to the console in a trace. *)
Definition clears (trace : list event) : nat := length (List.filter isClear trace).

(** The loop variable after [n] passes, starting from [i]. *)
Definition counterAfter (n : nat) (i : Z) : Z := Nat.iter n (λ i, wrapInt (i + 1)) i.

(** A clock reading whose fields are in the ranges of a calendar date of
    the years 0 to 9999. *)
Definition calendarTime (t : Time) : Prop :=
  0 ≤ Year t < 10000 ∧ 0 ≤ Month t < 100 ∧ 0 ≤ Day t < 100
  ∧ 0 ≤ Hour t < 100 ∧ 0 ≤ Minute t < 100.

(** The instance [t] with the text of its log pane [tv] replaced by [buf]. *)
Definition withBuffer (t : tui) (tv : TextView) (buf : string) : tui :=
  MkTui (app t) (frame t) (pages t) (screen t)
        (Some (MkTextView buf (tvDynamicColors tv) (tvScrollable tv)
                          (tvWordWrap tv) (tvBorder tv))).


(** The texts of a redrawn frame: the header, the clock, and the two
    footers. *)
Definition redrawnTexts (version : string) (now : Time)
    (addresses applications : list string) (width : Z) : list frameText :=
  [FrameText ("Incus OS " +:+ version) true AlignCenter ColorWhite;
   FrameText (Format now) true AlignRight ColorWhite]
  ++ footerTexts "IP Address(es)" addresses width
  ++ footerTexts "Installed application(s)" applications width.

(** An instance as [newTUI] builds it on an 80x25 console, and a moment at
    which every data source answers. *)
Definition demoTui : tui :=
  MkTui (Some (MkApplication 0))
        (Some (SetBorders 0 0 1 1 0 0 (NewFrame None)))
        (Some ["frame"])
        (Some (MkScreen (80, 25)))
        (Some (MkTextView "" true false true true)).

Definition demoEnv : Env :=
  MkEnv (inl "202611010000")
        (inl (MkState {[ "incus" := MkApp "6.18"; "debug" := MkApp "1.0" ]}))
        (inl ["127.0.0.1/8"; "10.0.0.5/24"; "::1/128"; "fe80::1/64"])
        (MkTime 2026 11 1 9 5).

(** A moment at which every data source fails. *)
Definition demoFailEnv : Env :=
  MkEnv (inr "exit status 1")
        (inr "open /var/lib/incus-os/state.json: permission denied")
        (inr "route ip+net: netlinkrib: too many open files")
        (MkTime 2026 11 1 9 5).

(** Consoles none of which can be opened, and consoles that can. *)
Definition demoNoConsole : ConsoleEnv :=
  MkConsoleEnv (λ _, inr "no tty devices could be opened") (λ _, (None, None)).

Definition demoConsole : ConsoleEnv :=
  MkConsoleEnv (λ paths, inl paths) (λ _, (Some (MkScreen (80, 25)), None)).

(** Two worlds that offer every pass the same data and differ at most in
    what the write to the console returns. *)
Definition sameData (world world' : nat → TickEnv) : Prop :=
  ∀ j, tickData (world' j) = tickData (world j) ∧ tickIter (world' j) = tickIter (world j).

(** A world in which every write to the console fails. *)
Definition demoWorld : nat → TickEnv :=
  λ _, MkTickEnv demoEnv map_to_list (Some "open /dev/console: permission denied").

(** ** The modal layer *)

(** [Pages.AddPage(name, ...)] of tview: a page of that name, if there is
    one, is dropped, and the new page is put on top.  [Pages.RemovePage(name)]
    drops the first page of that name, if there is one. *)
Fixpoint removeFirst (name : string) (pg : Pages) : Pages :=
  match pg with
  | [] => []
  | n :: rest => if String.eqb n name then rest else n :: removeFirst name rest
  end.

Definition AddPage (name : string) (pg : Pages) : Pages := removeFirst name pg ++ [name].
Definition RemovePage (name : string) (pg : Pages) : Pages := removeFirst name pg.

(** The progress bar of the package, of which [DisplayModal] sets the
    maximum and the progress. *)
Record ProgressBar := MkProgressBar {
  pbMax : Z;
  pbProgress : Z
}.

(** The primitive [DisplayModal] builds: a bordered, titled grid with the
    message and, maybe, a progress bar, centred in a box of the given width
    and height. *)
Record Modal := MkModal {
  modalTitle : string;
  modalMessage : TextView;
  modalRows : list Z;
  modalProgressBar : option ProgressBar;
  modalWidth : Z;
  modalHeight : Z
}.

(** The part of [DisplayModal] between [t.screen.Size()] and
    [t.pages.AddPage]; Go's [/] on [int] truncates, as [Z.quot] does. *)
Definition buildModal (scr : Screen) (title msg : string) (progress maxProgress : Z) : Modal :=
  let '(consoleWidth, consoleHeight) := Size scr in
  let modalWidth := Z.quot (consoleWidth * 3) 4 in
  let modalHeight := Z.quot consoleHeight 2 in
  let textView := MkTextView msg true false true false in
  if maxProgress >? 0
  then MkModal title textView [modalHeight - 6; 1]
               (Some (MkProgressBar maxProgress progress)) modalWidth modalHeight
  else MkModal title textView [modalHeight - 4] None modalWidth modalHeight.

(** [(t *tui) DisplayModal(title, msg, progress, maxProgress)]: the instance
    afterwards and the primitive that is now the page "modal". *)
Definition DisplayModal (title msg : string) (progress maxProgress : Z) (t : tui)
    : result (tui * Modal) :=
  match screen t with
  | None => Panic
  | Some scr =>
      let m := buildModal scr title msg progress maxProgress in
      match pages t with
      | None => Panic
      | Some pg =>
          match app t with
          | None => Panic
          | Some a =>
              Ok (MkTui (Some (Draw a)) (frame t) (Some (AddPage "modal" pg))
                        (screen t) (textView t), m)
          end
      end
  end.

(** [(t *tui) RemoveModal()] *)
Definition RemoveModal (t : tui) : result tui :=
  match pages t with
  | None => Panic
  | Some pg => Ok (MkTui (app t) (frame t) (Some (RemovePage "modal" pg))
                         (screen t) (textView t))
  end.

(** ** Sequences of calls *)


(** An instance as [newTUI] returns it on success: all five fields set. *)
Definition constructed (t : tui) : Prop :=
  is_Some (app t) ∧ is_Some (frame t) ∧ is_Some (pages t) ∧ is_Some (screen t)
  ∧ is_Some (textView t).

(** The number of repaints asked of the application, 0 if there is none. *)
Definition draws (t : tui) : nat :=
  match app t with
  | Some a => appDraws a
  | None => 0%nat
  end.

(** The number of pages of a name. *)
Definition pageCount (name : string) (pg : Pages) : nat :=
  length (List.filter (String.eqb name) pg).

(** The lines [ls] written one after the other. *)
Fixpoint flat (ls : list string) : string :=
  match ls with
  | [] => ""
  | l :: ls' => l +:+ flat ls'
  end.

(** What has been laid out so far: the closed lines and the open one. *)
Definition laidOut (st : wrapState) : string := flat (ret st) +:+ currentLine st.

(** The state that [demoEnv] loads. *)
Definition demoState : State :=
  MkState {[ "incus" := MkApp "6.18"; "debug" := MkApp "1.0" ]}.

(** * Properties *)

(** ** Strings *)

Lemma append_cons (x : ascii) (a b : string) : String x a +:+ b = String x (a +:+ b).
Proof. reflexivity. Qed.

Lemma append_empty_l (a : string) : "" +:+ a = a.
Proof. reflexivity. Qed.

Lemma append_assoc (a b c : string) : (a +:+ b) +:+ c = a +:+ (b +:+ c).
Proof.
  induction a as [|x a IH]; [reflexivity|].
  rewrite !append_cons. now f_equal.
Qed.

Lemma append_empty_r (a : string) : a +:+ "" = a.
Proof.
  induction a as [|x a IH]; [reflexivity|].
  rewrite append_cons. now f_equal.
Qed.

Lemma len_append (a b : string) : len (a +:+ b) = len a + len b.
Proof.
  unfold len. induction a as [|x a IH].
  - rewrite append_empty_l. simpl. lia.
  - rewrite append_cons. simpl String.length. lia.
Qed.

Lemma len_nonneg (a : string) : 0 ≤ len a.
Proof. unfold len. lia. Qed.

Lemma spaced_snoc (ws : list string) (w : string) :
  spaced (ws ++ [w]) = spaced ws +:+ w +:+ " ".
Proof.
  induction ws as [|v ws IH].
  - reflexivity.
  - change (spaced ((v :: ws) ++ [w])) with (v +:+ " " +:+ spaced (ws ++ [w])).
    change (spaced (v :: ws)) with (v +:+ " " +:+ spaced ws).
    rewrite IH. now rewrite !append_assoc.
Qed.

Lemma len_spaced_snoc (ws : list string) (w : string) :
  len (spaced (ws ++ [w])) = len (spaced ws) + len w + 1.
Proof. rewrite spaced_snoc, !len_append. change (len " ") with 1. lia. Qed.

(** ** The footer composer: the loop invariant *)

Section Wrap.
Variables (label : string) (words : list string) (width : Z).

Lemma wrapInit_inv : wrapInv label words width (wrapInit label).
Proof.
  split; [intros l []|].
  exists []. split; [intros x []|]. left.
  unfold wrapInit, labelPrefix; cbn [currentLine currentLen spaced].
  rewrite append_empty_r. change (len "") with 0. split; [reflexivity|].
  split; [lia | now left].
Qed.

(** A line under construction is a line of one of the three shapes. *)
Lemma openLine_closed (st : wrapState) :
  openLine label words width st → lineShape label words width (currentLine st).
Proof.
  intros (ws & Hincl & [(Hline & Hlen & Hfit) | (Hne & Hline & Hlen & [Hfit | (w & -> & Hlong)])]).
  - apply LabelLine with ws; [assumption..|].
    destruct Hfit as [->|Hfit]; [now left | right; lia].
  - apply ValueLine with ws; try assumption.
    rewrite Hline, <- Hlen. exact Hfit.
  - apply LongWordLine with w; [apply Hincl; now left | exact Hline | exact Hlong].
Qed.

Lemma wrapStep_inv (st : wrapState) (word : string) :
  In word words → wrapInv label words width st →
  wrapInv label words width (wrapStep width st word).
Proof.
  intros Hword [Hret Hopen]. unfold wrapStep.
  pose proof (len_nonneg word) as Hw0.
  destruct (Z.gtb_spec (currentLen st + len word) width) as [Hgt | Hle].
  - (* the word does not fit: the line is closed and a new one is opened *)
    cbn [ret currentLine currentLen]. split.
    + intros l [Hl | [<- | []]]%in_app_or; [now apply Hret | now apply openLine_closed].
    + exists [word]. split; [intros x [<- | []]; exact Hword|]. right.
      cbn [ret currentLine currentLen].
      split; [discriminate|]. split; [reflexivity|].
      split; [cbn [spaced]; rewrite !len_append; change (len " ") with 1;
              change (len "") with 0; lia|].
      destruct (Z.le_gt_cases (len word) width) as [Hfit | Hlong].
      * left. lia.
      * right. exists word. split; [reflexivity | lia].
  - (* the word fits: it is appended to the line under construction *)
    cbn [ret currentLine currentLen]. split; [exact Hret|].
    destruct Hopen as (ws & Hincl & Hcase). exists (ws ++ [word]).
    split; [intros x [Hx | [<- | []]]%in_app_or; [now apply Hincl | exact Hword]|].
    cbn [ret currentLine currentLen].
    destruct Hcase as [(Hline & Hlen & _) | (Hne & Hline & Hlen & Hfit)].
    + left. rewrite Hline, len_spaced_snoc, spaced_snoc, ?append_assoc.
      split; [reflexivity|]. split; [lia | right; lia].
    + right. split; [now destruct ws|].
      rewrite Hline, len_spaced_snoc, spaced_snoc, ?append_assoc.
      split; [reflexivity|]. split; [lia|]. left.
      destruct Hfit as [Hfit | (w & -> & Hlong)]; [lia|].
      cbn [spaced] in Hlen. rewrite !len_append in Hlen.
      change (len " ") with 1 in Hlen. change (len "") with 0 in Hlen. lia.
Qed.

Lemma wrapFold_inv (ws : list string) (st : wrapState) :
  incl ws words → wrapInv label words width st →
  wrapInv label words width (fold_left (wrapStep width) ws st).
Proof.
  revert st. induction ws as [|w ws IH]; intros st Hincl Hinv; [exact Hinv|].
  cbn [fold_left]. apply IH.
  - intros x Hx. apply Hincl. now right.
  - apply wrapStep_inv; [apply Hincl; now left | exact Hinv].
Qed.

End Wrap.

(** ** The footer composer: what the returned lines look like *)

Example wrap_demo :
  wrapFooterText "IP" "10.0.0.5/24, 192.168.1.20/24" 20
  = ["192.168.1.20/24 "; "[green]IP:[white] 10.0.0.5/24, "].
Proof. reflexivity. Qed.

Lemma Contains_space_cons (c : ascii) (w : string) :
  GoStrings.Contains (String c w) " " = (Ascii.eqb c " " || GoStrings.Contains w " ").
Proof.
  change (GoStrings.Contains (String c w) " ")
    with (if (if Ascii.ascii_dec " " c then String.prefix "" w else false)
          then true else GoStrings.Contains w " ").
  destruct (Ascii.ascii_dec " " c) as [<- | Hne]; [now destruct w|].
  destruct (Ascii.eqb_spec c " "%char) as [-> | _]; [congruence | reflexivity].
Qed.

(** The pieces of [strings.Split(text, " ")] hold no space: a word is never
    broken and never joined with its neighbour. *)
Lemma SplitSpace_unbroken (text w : string) :
  In w (GoStrings.SplitSpace text) → GoStrings.Contains w " " = false.
Proof.
  revert w. induction text as [|c text IH]; intros w Hin.
  - destruct Hin as [<- | []]. reflexivity.
  - cbn [GoStrings.SplitSpace] in Hin.
    destruct (Ascii.eqb c " "%char) eqn:Hc.
    + destruct Hin as [<- | Hin]; [reflexivity | now apply IH].
    + destruct (GoStrings.SplitSpace text) as [|v vs] eqn:Hsplit.
      * destruct Hin as [<- | []]. now rewrite Contains_space_cons, Hc.
      * destruct Hin as [<- | Hin]; [|apply IH; now right].
        rewrite Contains_space_cons, Hc. apply IH. now left.
Qed.

(** C1, as amended: every line returned by [wrapFooterText] has one of three
    shapes.  It is the label line: the label between its colour directives,
    followed by words of the value, each followed by one space; if it holds
    a word, then what is shown of it (the 14 bytes of directives not counted)
    is at most [width + 1] long, the last of it being the trailing space; if
    it holds none it is the bare label, whatever the width.  Or it is a line
    of one or more words of the value, each followed by one space, at most
    [width + 1] long.  Or it is a single word of the value longer than
    [width], followed by one space, alone on its line. *)
Theorem wrapFooterText_line_shapes (label text : string) (width : Z) (line : string) :
  In line (wrapFooterText label text width) →
  lineShape label (GoStrings.SplitSpace text) width line.
Proof.
  unfold wrapFooterText. intros Hin%in_rev.
  pose proof (wrapFold_inv label (GoStrings.SplitSpace text) width
                (GoStrings.SplitSpace text) (wrapInit label)
                (λ x H, H) (wrapInit_inv label _ width)) as [Hret Hopen].
  set (st := fold_left _ _ _) in *.
  destruct (len (currentLine st) >? 0).
  - apply in_app_or in Hin as [Hin | [<- | []]];
      [now apply Hret | now apply openLine_closed].
  - now apply Hret.
Qed.

Lemma wrapFooterText_line_shapes_witness :
  In "192.168.1.20/24 " (wrapFooterText "IP" "10.0.0.5/24, 192.168.1.20/24" 20)
  ∧ lineShape "IP" (GoStrings.SplitSpace "10.0.0.5/24, 192.168.1.20/24") 20
              "192.168.1.20/24 ".
Proof.
  split.
  - vm_compute. left. reflexivity.
  - apply (wrapFooterText_line_shapes "IP" "10.0.0.5/24, 192.168.1.20/24" 20).
    vm_compute. left. reflexivity.
Defined.

(** C1, as the specification words it, fails: for the label "a b c d", the
    value "x y" and the width 5 the label line is 23 bytes long, and 8
    characters are shown of it even when the 14 bytes of colour directives
    and the trailing space are not counted; no word of the value is longer
    than 5. *)
Lemma wrapFooterText_label_line_overflows :
  wrapFooterText "a b c d" "x y" 5 = ["x y "; "[green]a b c d:[white] "]
  ∧ ¬ footerWithin len "a b c d" "x y" 5
  ∧ ¬ footerWithin (λ l, len l - 15) "a b c d" "x y" 5.
Proof.
  split; [reflexivity|].
  assert (Hin : In "[green]a b c d:[white] " (wrapFooterText "a b c d" "x y" 5))
    by (vm_compute; right; left; reflexivity).
  assert (Hwords : ∀ w, In w (GoStrings.SplitSpace "x y") → ¬ 5 < len w).
  { intros w [<- | [<- | []]]; vm_compute; discriminate. }
  split; intros H; destruct (H _ Hin) as [Hle | (w & Hw & Hlong & _)];
    solve [vm_compute in Hle; now apply Hle | now apply (Hwords w)].
Qed.

(** ** The address filter *)

Lemma prefix_spec (p s : string) :
  String.prefix p s = true ↔ ∃ rest, s = p +:+ rest.
Proof.
  revert s. induction p as [|a p IH]; intros s.
  - split; [intros _; now exists s | intros _; now destruct s].
  - destruct s as [|b s].
    + split; [discriminate | intros [rest Hrest]; discriminate].
    + cbn [String.prefix]. destruct (Ascii.ascii_dec a b) as [<- | Hne].
      * rewrite IH. split; intros [rest Hrest]; exists rest.
        -- rewrite append_cons. now f_equal.
        -- rewrite append_cons in Hrest. now injection Hrest.
      * split; [discriminate|]. intros [rest Hrest].
        rewrite append_cons in Hrest. injection Hrest as Hab _. congruence.
Qed.

(** The test of one loop iteration is the exclusion the specification
    words. *)
Lemma ipStep_spec (ret : list string) (addr : string) :
  (excludedAddr addr ∧ ipStep ret addr = ret)
  ∨ (¬ excludedAddr addr ∧ ipStep ret addr = ret ++ [addr]).
Proof.
  unfold ipStep, excludedAddr, linkLocal, GoStrings.HasPrefix.
  destruct (String.eqb_spec addr "") as [-> | H1]; [left; auto|].
  destruct (String.eqb_spec addr "127.0.0.1/8") as [-> | H2]; [left; auto|].
  destruct (String.eqb_spec addr "::1/128") as [-> | H3]; [left; auto|].
  destruct (String.prefix "fe80:" addr) eqn:H4; cbn [orb].
  - left. split; [|reflexivity]. do 3 right. now apply prefix_spec.
  - right. split; [|reflexivity].
    intros [? | [? | [? | Hll%prefix_spec]]]; congruence.
Qed.

Lemma ipFold_Filtered (addrs acc kept : list string) :
  Filtered addrs kept → fold_left ipStep addrs acc = acc ++ kept.
Proof.
  intros HF. revert acc. induction HF as [|a l r Hex _ IH | a l r Hkeep _ IH]; intros acc.
  - cbn. now rewrite app_nil_r.
  - cbn [fold_left]. destruct (ipStep_spec acc a) as [[_ ->] | [Hn _]]; [apply IH | contradiction].
  - cbn [fold_left]. destruct (ipStep_spec acc a) as [[He _] | [_ ->]]; [contradiction|].
    rewrite IH, <- app_assoc. reflexivity.
Qed.

Lemma Filtered_total (addrs : list string) : ∃ kept, Filtered addrs kept.
Proof.
  induction addrs as [|a l [kept IH]]; [exists []; constructor|].
  destruct (ipStep_spec [] a) as [[He _] | [Hn _]].
  - exists kept. now constructor.
  - exists (a :: kept). now constructor.
Qed.

(** C7: when the enumeration succeeds, [getIPAddresses] returns the
    candidates without the empty string, the two loopback literals and the
    entries that begin with the link-local prefix "fe80:", and with every
    other entry, in order; it is the only list that does, and for the
    candidates of the specification it is the single address 10.0.0.5/24. *)
Theorem getIPAddresses_filters (addrs : list string) :
  Filtered addrs (getIPAddresses (inl addrs))
  ∧ (∀ kept, Filtered addrs kept → kept = getIPAddresses (inl addrs))
  ∧ getIPAddresses (inl ["127.0.0.1/8"; "::1/128"; "fe80::1/64"; "10.0.0.5/24"])
    = ["10.0.0.5/24"].
Proof.
  assert (Huniq : ∀ kept, Filtered addrs kept → kept = getIPAddresses (inl addrs)).
  { intros kept HF. cbn [getIPAddresses]. now rewrite (ipFold_Filtered addrs [] kept HF). }
  split; [|split; [exact Huniq | reflexivity]].
  destruct (Filtered_total addrs) as [kept HF].
  now rewrite <- (Huniq kept HF).
Qed.

(** ** The log sink *)

(** C3: a chunk that holds both markers is sent to the log pane between the
    warning directives "[orange]" and "[white]", not the error ones: the
    warning marker is looked for first. *)
Theorem Write_warning_before_error (body mirror : writeOutcome) (t : tui) (tv : TextView)
    (stdout p : string) :
  textView t = Some tv →
  GoStrings.Contains p "level=WARN" = true →
  GoStrings.Contains p "level=ERROR" = true →
  colorize p = "[orange]" +:+ p +:+ "[white]"
  ∧ colorize p ≠ "[red]" +:+ p +:+ "[white]"
  ∧ ∃ out r,
      Write body mirror t stdout p
      = Ok (withBuffer t tv (fst (Fprint body (tvBuffer tv) ("[orange]" +:+ p +:+ "[white]"))),
            out, r).
Proof.
  intros Htv Hwarn _.
  assert (Hcol : colorize p = "[orange]" +:+ p +:+ "[white]")
    by (unfold colorize; now rewrite Hwarn).
  split; [exact Hcol|]. split; [rewrite Hcol; discriminate|].
  unfold Write. rewrite Htv, Hcol.
  destruct (Fprint body (tvBuffer tv) _) as [buf [num [e|]]]; cbn [fst].
  - eexists _, _. reflexivity.
  - destruct (Fprint mirror stdout p) as [out r]. eexists _, _. reflexivity.
Qed.

Lemma Write_warning_before_error_witness :
  ∃ out r,
    Write WriteOk WriteOk (MkTui None None None None (Some (MkTextView "" true false true true)))
          "" "level=WARN retry after level=ERROR"
    = Ok (MkTui None None None None
            (Some (MkTextView "[orange]level=WARN retry after level=ERROR[white]"
                              true false true true)), out, r).
Proof.
  exact (proj2 (proj2 (Write_warning_before_error WriteOk WriteOk
           (MkTui None None None None (Some (MkTextView "" true false true true)))
           (MkTextView "" true false true true) "" "level=WARN retry after level=ERROR"
           eq_refl eq_refl eq_refl))).
Defined.




(** ** The frame engine *)

Lemma addFooter_texts (lines : list string) (f : Frame) :
  addFooter lines f
  = MkFrame (frameTexts f ++ (footerText <$> lines)) (framePrimitive f) (frameBorders f).
Proof.
  unfold addFooter. revert f. induction lines as [|l lines IH]; intros [texts prim borders].
  - cbn. now rewrite app_nil_r.
  - cbn [fold_left]. rewrite IH. unfold AddText. cbn.
    now rewrite <- app_assoc.
Qed.

(** What a redraw does to an instance that has its frame, screen and
    application: the frame keeps its borders, gets the log pane as body if
    there is one, and gets the texts of [redrawnTexts]; one repaint is asked
    for; nothing else changes. *)
Lemma redrawScreen_rebuilds (e : Env) (iter : MapIter) (t : tui)
    (f : Frame) (scr : Screen) (a : Application) :
  frame t = Some f → screen t = Some scr → app t = Some a →
  redrawScreen e iter t
  = Ok (MkTui (Some (Draw a))
          (Some (MkFrame
             (redrawnTexts
                match GetCurrentRelease e with
                | inl v => v
                | inr err => "[" +:+ err +:+ "]"
                end
                (Now e) (getIPAddresses (InterfaceAddrs e)) (applicationList e iter)
                (fst (Size scr)))
             match textView t with
             | Some _ => Some TextViewPrimitive
             | None => framePrimitive f
             end
             (frameBorders f)))
          (pages t) (screen t) (textView t)).
Proof.
  intros Hf Hs Ha. unfold redrawScreen. rewrite Hf, Hs, Ha.
  rewrite !addFooter_texts. unfold redrawnTexts, footerTexts.
  destruct (textView t); cbn; rewrite <- ?app_assoc; reflexivity.
Qed.

(** A redraw never dereferences nil on a drawable instance, whatever the
    data sources answer, and leaves the instance drawable. *)
Lemma redrawScreen_total (e : Env) (iter : MapIter) (t : tui) :
  drawable t → ∃ t', redrawScreen e iter t = Ok t' ∧ drawable t'.
Proof.
  intros Hd. destruct (frame t) as [f|] eqn:Hf.
  - destruct Hd as [[scr Hs] [a Ha]]; [now exists f|].
    eexists. split; [exact (redrawScreen_rebuilds e iter t f scr a Hf Hs Ha)|].
    intros _. cbn. rewrite Hs. split; eexists; reflexivity.
  - exists t. split; [unfold redrawScreen; now rewrite Hf | exact Hd].
Qed.

(** The loop that collects the application strings is a map over the
    visited entries. *)
Lemma collect_fmap (l : list (string * StateApplication)) (acc : list string) :
  fold_left (λ acc '(app, info), acc ++ [app +:+ "(" +:+ Version info +:+ ")"]) l acc
  = acc ++ ((λ '(app, info), app +:+ "(" +:+ Version info +:+ ")") <$> l).
Proof.
  revert acc. induction l as [|[app info] l IH]; intros acc; cbn [fold_left].
  - now rewrite app_nil_r.
  - rewrite IH, <- app_assoc. reflexivity.
Qed.

(** Sorting forgets the order of its input. *)
Lemma Sort_Permutation (l1 l2 : list string) : l1 ≡ₚ l2 → Sort l1 = Sort l2.
Proof.
  intros Hp. unfold Sort.
  apply (Sorted_unique String.le); try apply Sorted_merge_sort; try apply _.
  now rewrite !merge_sort_Permutation.
Qed.

(** The sorted application list does not depend on the order in which Go
    visits the map. *)
Lemma applicationList_order (e : Env) (iter1 iter2 : MapIter) :
  validIter iter1 → validIter iter2 → applicationList e iter1 = applicationList e iter2.
Proof.
  intros H1 H2. unfold applicationList.
  destruct (LoadOrCreate e) as [s|err]; [|reflexivity].
  apply Sort_Permutation.
  rewrite !collect_fmap. cbn [app]. apply fmap_Permutation.
  etrans; [apply H1 | symmetry; apply H2].
Qed.

(** The clock text has the layout YYYY-MM-DD HH:MM UTC: a field of a
    calendar time fills its width exactly. *)
Lemma appendInt_width (w : nat) (bound : Z) :
  forallb (λ n, Nat.eqb (String.length (appendInt (Z.of_nat n) w)) w)
          (seq 0 (Z.to_nat bound)) = true →
  ∀ x, 0 ≤ x < bound → len (appendInt x w) = Z.of_nat w.
Proof.
  intros Hall x Hx. rewrite forallb_forall in Hall.
  specialize (Hall (Z.to_nat x)). rewrite Z2Nat.id in Hall by lia.
  unfold len. f_equal. apply Nat.eqb_eq, Hall, in_seq. lia.
Qed.

Lemma Format_length (t : Time) : calendarTime t → len (Format t) = 20.
Proof.
  intros (Hy & Hm & Hd & Hh & Hn). unfold Format. rewrite !len_append.
  assert (H4 : ∀ x, 0 ≤ x < 10000 → len (appendInt x 4) = 4)
    by (apply (appendInt_width 4 10000); vm_compute; reflexivity).
  assert (H2 : ∀ x, 0 ≤ x < 100 → len (appendInt x 2) = 2)
    by (apply (appendInt_width 2 100); vm_compute; reflexivity).
  rewrite (H4 _ Hy), (H2 _ Hm), (H2 _ Hd), (H2 _ Hh), (H2 _ Hn).
  reflexivity.
Qed.

Example Format_demo : Format (MkTime 2026 11 1 9 5) = "2026-11-01 09:05 UTC".
Proof. reflexivity. Qed.

(** C2, as amended: a redraw of an instance that has its frame clears the
    texts and adds first the product and version header, centred, then the
    clock text in the layout YYYY-MM-DD HH:MM UTC, right-aligned; every text
    after these two is a left-aligned footer. *)
Theorem redrawScreen_header_centred (e : Env) (iter : MapIter) (t : tui)
    (f : Frame) (scr : Screen) (a : Application) :
  frame t = Some f → screen t = Some scr → app t = Some a →
  ∃ t' f' version footers,
    redrawScreen e iter t = Ok t' ∧ frame t' = Some f'
    ∧ frameTexts f'
      = FrameText ("Incus OS " +:+ version) true AlignCenter ColorWhite
        :: FrameText (Format (Now e)) true AlignRight ColorWhite
        :: footers
    ∧ (∀ v, GetCurrentRelease e = inl v → version = v)
    ∧ Forall (λ x, ftHeader x = false ∧ ftAlign x = AlignLeft) footers
    ∧ (calendarTime (Now e) → len (Format (Now e)) = 20).
Proof.
  intros Hf Hs Ha.
  eexists _, _, _, _. split; [exact (redrawScreen_rebuilds e iter t f scr a Hf Hs Ha)|].
  split; [reflexivity|]. split; [reflexivity|].
  split; [now intros v ->|]. split; [|apply Format_length].
  apply Forall_app. split; unfold footerTexts; apply Forall_fmap, Forall_true; now intros.
Qed.

Lemma redrawScreen_header_centred_witness :
  ∃ t' f' version footers,
    redrawScreen demoEnv map_to_list demoTui = Ok t' ∧ frame t' = Some f'
    ∧ frameTexts f'
      = FrameText ("Incus OS " +:+ version) true AlignCenter ColorWhite
        :: FrameText "2026-11-01 09:05 UTC" true AlignRight ColorWhite
        :: footers
    ∧ (∀ v, GetCurrentRelease demoEnv = inl v → version = v)
    ∧ Forall (λ x, ftHeader x = false ∧ ftAlign x = AlignLeft) footers
    ∧ (calendarTime (MkTime 2026 11 1 9 5) → len "2026-11-01 09:05 UTC" = 20).
Proof.
  exact (redrawScreen_header_centred demoEnv map_to_list demoTui
           (SetBorders 0 0 1 1 0 0 (NewFrame None)) (MkScreen (80, 25)) (MkApplication 0)
           eq_refl eq_refl eq_refl).
Defined.

(** C2, as the specification words it, fails: after a redraw no header text
    of the frame is left-aligned; the product and version line is centred. *)
Lemma redrawScreen_header_not_left :
  ∃ t' f',
    redrawScreen demoEnv map_to_list demoTui = Ok t' ∧ frame t' = Some f'
    ∧ ¬ headerLeftAligned "202611010000" f'
    ∧ In (FrameText "Incus OS 202611010000" true AlignCenter ColorWhite) (frameTexts f').
Proof.
  eexists _, _. split; [vm_compute; reflexivity|]. split; [reflexivity|]. split.
  - unfold headerLeftAligned. cbn. intros [H | [H | [H | [H | []]]]]; discriminate.
  - now left.
Qed.

(** C5: a redraw has no error to return and, on an instance that has its
    frame, screen and application, always completes.  If the release query
    fails, the header reads "Incus OS [" + error + "]"; if the state store
    fails, the application list is empty and the footer is the one of an
    empty list. *)
Theorem redrawScreen_absorbs_failures (e : Env) (iter : MapIter) (t : tui)
    (f : Frame) (scr : Screen) (a : Application) :
  frame t = Some f → screen t = Some scr → app t = Some a →
  ∃ t' f',
    redrawScreen e iter t = Ok t' ∧ frame t' = Some f'
    ∧ (∀ err, GetCurrentRelease e = inr err →
         head (frameTexts f')
         = Some (FrameText ("Incus OS [" +:+ err +:+ "]") true AlignCenter ColorWhite))
    ∧ (∀ err, LoadOrCreate e = inr err →
         applicationList e iter = []
         ∧ ∃ version,
             frameTexts f'
             = redrawnTexts version (Now e) (getIPAddresses (InterfaceAddrs e)) []
                            (fst (Size scr))).
Proof.
  intros Hf Hs Ha.
  eexists _, _. split; [exact (redrawScreen_rebuilds e iter t f scr a Hf Hs Ha)|].
  split; [reflexivity|]. cbn [frameTexts]. split.
  - intros err ->. reflexivity.
  - intros err Herr.
    assert (Hnone : applicationList e iter = [])
      by (unfold applicationList; rewrite Herr; reflexivity).
    split; [exact Hnone|]. rewrite Hnone. eexists. reflexivity.
Qed.

Lemma redrawScreen_absorbs_failures_witness :
  ∃ t' f',
    redrawScreen demoFailEnv map_to_list demoTui = Ok t' ∧ frame t' = Some f'
    ∧ (∀ err, GetCurrentRelease demoFailEnv = inr err →
         head (frameTexts f')
         = Some (FrameText ("Incus OS [" +:+ err +:+ "]") true AlignCenter ColorWhite))
    ∧ (∀ err, LoadOrCreate demoFailEnv = inr err →
         applicationList demoFailEnv map_to_list = []
         ∧ ∃ version,
             frameTexts f'
             = redrawnTexts version (Now demoFailEnv)
                 (getIPAddresses (InterfaceAddrs demoFailEnv)) [] 80).
Proof.
  exact (redrawScreen_absorbs_failures demoFailEnv map_to_list demoTui
           (SetBorders 0 0 1 1 0 0 (NewFrame None)) (MkScreen (80, 25)) (MkApplication 0)
           eq_refl eq_refl eq_refl).
Defined.

Example redraw_with_failures :
  redrawScreen demoFailEnv map_to_list demoTui
  = Ok (MkTui (Some (MkApplication 1))
          (Some (MkFrame
             [FrameText "Incus OS [exit status 1]" true AlignCenter ColorWhite;
              FrameText "2026-11-01 09:05 UTC" true AlignRight ColorWhite;
              footerText "[green]IP Address(es):[white] route ip+net: netlinkrib: too many open files ";
              footerText "[green]Installed application(s):[white]  "]
             (Some TextViewPrimitive) (0, 0, 1, 1, 0, 0)))
          (Some ["frame"]) (Some (MkScreen (80, 25)))
          (Some (MkTextView "" true false true true))).
Proof. vm_compute. reflexivity. Qed.



(** C6: on a drawable instance, with the data sources unchanged, a second
    redraw leaves the frame (and the pages, the screen and the log pane) as
    the first one left them, whatever the orders in which the two visit the
    application map; and a redraw returns the instance untouched exactly
    when the instance has no frame. *)
Theorem redrawScreen_idempotent (e : Env) (iter1 iter2 : MapIter) (t : tui) :
  validIter iter1 → validIter iter2 → drawable t →
  (∃ t1 t2,
     redrawScreen e iter1 t = Ok t1 ∧ redrawScreen e iter2 t1 = Ok t2 ∧ sameView t1 t2)
  ∧ (redrawScreen e iter1 t = Ok t ↔ frame t = None).
Proof.
  intros H1 H2 Hd. destruct (frame t) as [f|] eqn:Hf.
  - destruct Hd as [[scr Hs] [a Ha]]; [now exists f|].
    pose proof (redrawScreen_rebuilds e iter1 t f scr a Hf Hs Ha) as Hr1.
    split.
    + eexists _, _. split; [exact Hr1|]. split.
      * apply redrawScreen_rebuilds; cbn; [reflexivity | exact Hs | reflexivity].
      * unfold sameView. cbn.
        rewrite (applicationList_order e iter2 iter1 H2 H1).
        destruct (textView t); repeat split; try reflexivity; intros _; eexists; reflexivity.
    + rewrite Hr1. split; [|discriminate]. intros Heq.
      injection Heq as Heq. apply (f_equal app) in Heq. cbn in Heq.
      rewrite Ha in Heq. injection Heq as Heq.
      apply (f_equal appDraws) in Heq. cbn in Heq. lia.
  - split.
    + exists t, t. unfold redrawScreen. rewrite Hf. repeat split; auto.
    + unfold redrawScreen. rewrite Hf. tauto.
Qed.

Lemma redrawScreen_idempotent_witness :
  (∃ t1 t2,
     redrawScreen demoEnv map_to_list demoTui = Ok t1
     ∧ redrawScreen demoEnv (λ m, reverse (map_to_list m)) t1 = Ok t2
     ∧ sameView t1 t2)
  ∧ (redrawScreen demoEnv map_to_list demoTui = Ok demoTui ↔ frame demoTui = None).
Proof.
  apply (redrawScreen_idempotent demoEnv map_to_list (λ m, reverse (map_to_list m)) demoTui).
  - intros m. reflexivity.
  - intros m. apply reverse_Permutation.
  - intros _. split; eexists; reflexivity.
Defined.

(** ** Construction and the singleton *)

(** An instance that [newTUI] returns together with an error has no
    application, frame, pages or log pane. *)
Lemma newTUI_failed_is_partial (c : ConsoleEnv) (partial : tui) (err : error) :
  newTUI c = (partial, Some err) →
  app partial = None ∧ frame partial = None ∧ pages partial = None
  ∧ textView partial = None.
Proof.
  unfold newTUI. destruct (newTtyMultiplexer c consolePaths) as [ttys|e0].
  - destruct (NewTerminfoScreenFromTty c ttys) as [scr [e1|]]; intros [= <- _].
    cbn. auto.
  - intros [= <- _]. cbn. auto.
Qed.

(** Every instance [newTUI] returns is drawable, provided the screen
    constructor keeps to its contract: no error means a screen. *)
Lemma newTUI_drawable (c : ConsoleEnv) (t : tui) (err : option error) :
  (∀ ttys, (NewTerminfoScreenFromTty c ttys).2 = None →
           is_Some (NewTerminfoScreenFromTty c ttys).1) →
  newTUI c = (t, err) → drawable t.
Proof.
  intros Hscr. unfold newTUI.
  destruct (newTtyMultiplexer c consolePaths) as [ttys|e0].
  - specialize (Hscr ttys).
    destruct (NewTerminfoScreenFromTty c ttys) as [scr [e1|]]; intros [= <- _].
    + intros [x Hx]. discriminate.
    + intros _. cbn in *. split; [now apply Hscr | now eexists].
  - intros [= <- _] [x Hx]. discriminate.
Qed.

(** Once [tuiInstance] is set, [GetTUI] returns it with a nil error, does
    not consult the consoles and changes nothing. *)
Lemma GetTUIs_set (cs : list ConsoleEnv) (σ : Store) (p : nat) :
  tuiInstance σ = Some p →
  GetTUIs cs σ = ((λ _, (Some p, None)) <$> cs, σ).
Proof.
  intros Hp. induction cs as [|c cs IH]; [reflexivity|].
  cbn [GetTUIs]. unfold GetTUI at 1. rewrite Hp, IH. reflexivity.
Qed.

(** C9: if the construction fails in the first call of [GetTUI], that call
    returns nil and the error, yet the instance built so far is stored in
    [tuiInstance]; every later call returns that partial instance with a nil
    error, without constructing again. *)
Theorem GetTUI_keeps_failed_instance (c : ConsoleEnv) (σ : Store) (partial : tui)
    (err : error) :
  tuiInstance σ = None →
  newTUI c = (partial, Some err) →
  GetTUI c σ = ((None, Some err), MkStore (heap σ ++ [partial]) (Some (length (heap σ))))
  ∧ (heap σ ++ [partial]) !! length (heap σ) = Some partial
  ∧ (app partial = None ∧ frame partial = None ∧ pages partial = None
     ∧ textView partial = None)
  ∧ ∀ cs : list ConsoleEnv,
      GetTUIs cs (MkStore (heap σ ++ [partial]) (Some (length (heap σ))))
      = ((λ _, (Some (length (heap σ)), None)) <$> cs,
         MkStore (heap σ ++ [partial]) (Some (length (heap σ)))).
Proof.
  intros Hnil Hnew. split; [unfold GetTUI; now rewrite Hnil, Hnew|].
  split; [apply list_lookup_middle; reflexivity|].
  split; [exact (newTUI_failed_is_partial c partial err Hnew)|].
  intros cs. now apply GetTUIs_set.
Qed.

Lemma GetTUI_keeps_failed_instance_witness :
  GetTUI demoNoConsole emptyStore
  = ((None, Some "no tty devices could be opened"),
     MkStore [MkTui None None None None None] (Some 0%nat))
  ∧ [MkTui None None None None None] !! 0%nat = Some (MkTui None None None None None)
  ∧ (app (MkTui None None None None None) = None
     ∧ frame (MkTui None None None None None) = None
     ∧ pages (MkTui None None None None None) = None
     ∧ textView (MkTui None None None None None) = None)
  ∧ ∀ cs : list ConsoleEnv,
      GetTUIs cs (MkStore [MkTui None None None None None] (Some 0%nat))
      = ((λ _, (Some 0%nat, None)) <$> cs,
         MkStore [MkTui None None None None None] (Some 0%nat)).
Proof.
  exact (GetTUI_keeps_failed_instance demoNoConsole emptyStore
           (MkTui None None None None None) "no tty devices could be opened"
           eq_refl eq_refl).
Defined.

Example GetTUI_after_failure :
  fst (GetTUIs [demoNoConsole; demoConsole; demoConsole] emptyStore)
  = [(None, Some "no tty devices could be opened"); (Some 0%nat, None); (Some 0%nat, None)].
Proof. reflexivity. Qed.

(** ** The redraw loop *)

Lemma wrapInt_small (z : Z) : - 2 ^ 63 ≤ z < 2 ^ 63 → wrapInt z = z.
Proof. intros Hz. unfold wrapInt. rewrite Z.mod_small; lia. Qed.

(** Twelve passes later the test [i%12 == 1] gives the same answer. *)
Lemma clearDue_period (n : nat) :
  clearDue (Z.of_nat (n + 12)) = clearDue (Z.of_nat n).
Proof.
  unfold clearDue. rewrite !Z.rem_mod_nonneg by lia.
  replace (Z.of_nat (n + 12)) with (Z.of_nat n + 1 * 12) by lia.
  now rewrite Z_mod_plus_full.
Qed.

Lemma clears_app (l1 l2 : list event) : clears (l1 ++ l2) = (clears l1 + clears l2)%nat.
Proof. unfold clears. now rewrite List.filter_app, length_app. Qed.

Lemma clears_tickEvents (i : Z) (te : TickEnv) :
  clears (tickEvents i te) = if clearDue i then 1%nat else 0%nat.
Proof. unfold tickEvents. now destruct (clearDue i). Qed.

Lemma tickEvents_segment (i : Z) (te : TickEnv) : tickSegment (tickEvents i te).
Proof. unfold tickEvents. destruct (clearDue i); constructor. Qed.

(** In any twelve passes in a row of a loop that started at 0 and has not
    wrapped, the console is written to once. *)
Lemma window_clears (world : nat → TickEnv) (k : nat) :
  clears (concat (List.map (λ j, tickEvents (Z.of_nat j) (world j)) (seq k 12))) = 1%nat.
Proof.
  induction k as [|k IH]; [reflexivity|].
  assert (Hw : k :: seq (S k) 12 = seq k 12 ++ [(k + 12)%nat])
    by exact (seq_app 12 1 k).
  remember (seq (S k) 12) as next eqn:Hnext. remember (seq k 12) as this eqn:Hthis.
  apply (f_equal (λ l, clears (concat (List.map
           (λ j, tickEvents (Z.of_nat j) (world j)) l)))) in Hw.
  cbn beta in Hw. rewrite List.map_app, concat_app, clears_app, IH in Hw.
  cbn [List.map concat] in Hw.
  rewrite app_nil_r, clears_app, !clears_tickEvents, clearDue_period in Hw.
  destruct (clearDue (Z.of_nat k)); lia.
Qed.

(** One pass on a drawable instance: the redraw runs, the events of the pass
    are appended, and the loop variable is incremented. *)
Lemma loopBody_events (te : TickEnv) (st : LoopState) :
  drawable (loopT st) →
  ∃ t', redrawScreen (tickData te) (tickIter te) (loopT st) = Ok t' ∧ drawable t'
        ∧ loopBody te st
          = Ok (MkLoop (wrapInt (loopI st + 1)) t'
                       (loopTrace st ++ tickEvents (loopI st) te)).
Proof.
  intros Hd.
  destruct (redrawScreen_total (tickData te) (tickIter te) (loopT st) Hd) as (t' & Hr & Hd').
  exists t'. split; [exact Hr|]. split; [exact Hd'|].
  unfold loopBody, tickEvents. rewrite Hr.
  destruct (clearDue (loopI st)); cbn [app]; now rewrite <- ?app_assoc.
Qed.

(** [n] passes on a drawable instance, before the loop variable wraps. *)
Lemma runLoop_trace (n : nat) : ∀ (world : nat → TickEnv) (st : LoopState),
  drawable (loopT st) → 0 ≤ loopI st → loopI st + Z.of_nat n < 2 ^ 63 →
  ∃ st', runLoop world n st = Ok st'
         ∧ loopI st' = loopI st + Z.of_nat n
         ∧ drawable (loopT st')
         ∧ loopTrace st'
           = loopTrace st
             ++ concat (List.map (λ j, tickEvents (loopI st + Z.of_nat j) (world j)) (seq 0 n)).
Proof.
  induction n as [|n IH]; intros world st Hd Hi Hn.
  - exists st. cbn. rewrite app_nil_r.
    split; [reflexivity|]. split; [lia|]. split; [exact Hd | reflexivity].
  - destruct (loopBody_events (world O) st Hd) as (t' & _ & Hd' & Hbody).
    cbn [runLoop]. rewrite Hbody.
    destruct (IH (λ k, world (S k)) (MkLoop (wrapInt (loopI st + 1)) t'
                (loopTrace st ++ tickEvents (loopI st) (world O)))) as (st' & Hrun & Hi' & Hd'' & Htr).
    + exact Hd'.
    + cbn. rewrite wrapInt_small; lia.
    + cbn. rewrite wrapInt_small; lia.
    + cbn [loopI loopT loopTrace] in *. rewrite wrapInt_small in * by lia.
      exists st'. split; [exact Hrun|]. split; [lia|]. split; [exact Hd''|].
      rewrite Htr, <- app_assoc. f_equal.
      cbn [seq List.map concat]. rewrite Z.add_0_r. f_equal. f_equal.
      rewrite <- seq_shift, List.map_map. apply List.map_ext. intros j.
      f_equal. lia.
Qed.

(** What the write to the console returns has no influence on the instance
    or on the loop variable. *)
Lemma runLoop_write_outcome_ignored (n : nat) :
  ∀ (world world' : nat → TickEnv) (st st' : LoopState),
  sameData world world' → loopI st = loopI st' → loopT st = loopT st' →
  match runLoop world n st, runLoop world' n st' with
  | Ok s, Ok s' => loopI s = loopI s' ∧ loopT s = loopT s'
  | Panic, Panic => True
  | _, _ => False
  end.
Proof.
  induction n as [|n IH]; intros world world' st st' Hsame Hi Ht; [now cbn|].
  cbn [runLoop]. unfold loopBody. destruct (Hsame O) as [-> ->]. rewrite <- Hi, <- Ht.
  destruct (redrawScreen _ _ _) as [t'|]; [|exact I].
  apply IH; [intros j; apply (Hsame (S j)) | reflexivity | reflexivity].
Qed.

(** C8: while the loop variable has not wrapped, any twelve passes in a row
    of the redraw loop write the two bytes ESC c to /dev/console exactly
    once, in front of the redraw of that pass; whatever the write returns,
    the pass goes on with the redraw and the sleep, the write is not tried
    again, and the instance and the loop variable end up the same. *)
Theorem Run_clears_once_in_twelve (world : nat → TickEnv) (t : tui) (k : nat) :
  drawable t → Z.of_nat k + 12 < 2 ^ 63 →
  ∃ st0 st1 segments,
    runLoop world k (loopStart t) = Ok st0
    ∧ runLoop world (k + 12) (loopStart t) = Ok st1
    ∧ loopTrace st1 = loopTrace st0 ++ concat segments
    ∧ length segments = 12%nat
    ∧ Forall tickSegment segments
    ∧ clears (concat segments) = 1%nat
    ∧ ∀ world', sameData world world' →
        ∃ st1', runLoop world' (k + 12) (loopStart t) = Ok st1'
                ∧ loopT st1' = loopT st1 ∧ loopI st1' = loopI st1.
Proof.
  intros Hd Hk.
  destruct (runLoop_trace k world (loopStart t) Hd) as (st0 & Hrun0 & _ & _ & Htr0);
    [cbn; lia | cbn; lia |].
  destruct (runLoop_trace (k + 12) world (loopStart t) Hd) as (st1 & Hrun1 & _ & _ & Htr1);
    [cbn; lia | cbn; lia |].
  exists st0, st1,
    (List.map (λ j, tickEvents (Z.of_nat j) (world j)) (seq k 12)).
  split; [exact Hrun0|]. split; [exact Hrun1|]. split.
  { rewrite Htr1, Htr0. cbn [loopStart loopTrace loopI app].
    rewrite seq_app, List.map_app, concat_app. reflexivity. }
  split; [now rewrite length_map, length_seq|].
  split; [apply Forall_forall; intros seg [j [<- _]]%list_elem_of_In%in_map_iff;
          apply tickEvents_segment|].
  split; [apply window_clears|].
  intros world' Hsame.
  pose proof (runLoop_write_outcome_ignored (k + 12) world world'
                (loopStart t) (loopStart t) Hsame eq_refl eq_refl) as Hig.
  rewrite Hrun1 in Hig. destruct (runLoop world' (k + 12) (loopStart t)) as [st1'|]; [|easy].
  exists st1'. destruct Hig as [-> ->]. auto.
Qed.

Lemma Run_clears_once_in_twelve_witness :
  ∃ st0 st1 segments,
    runLoop demoWorld 0 (loopStart demoTui) = Ok st0
    ∧ runLoop demoWorld (0 + 12) (loopStart demoTui) = Ok st1
    ∧ loopTrace st1 = loopTrace st0 ++ concat segments
    ∧ length segments = 12%nat
    ∧ Forall tickSegment segments
    ∧ clears (concat segments) = 1%nat
    ∧ ∀ world', sameData demoWorld world' →
        ∃ st1', runLoop world' (0 + 12) (loopStart demoTui) = Ok st1'
                ∧ loopT st1' = loopT st1 ∧ loopI st1' = loopI st1.
Proof.
  apply (Run_clears_once_in_twelve demoWorld demoTui 0).
  - intros _. split; eexists; reflexivity.
  - reflexivity.
Defined.

(** The first passes: the console is cleared in the second pass, although
    the write fails, and the redraw follows. *)
Example Run_first_passes :
  match runLoop demoWorld 3 (loopStart demoTui) with
  | Ok st =>
      loopTrace st
      = [Redraw; Sleep 5;
         ConsoleWrite "/dev/console" [27; 99] (Some "open /dev/console: permission denied");
         Redraw; Sleep 5;
         Redraw; Sleep 5]
      ∧ loopI st = 3
  | Panic => False
  end.
Proof. vm_compute. split; reflexivity. Qed.

(** Past the wrap-around the loop variable is negative and the test
    [i%12 == 1] is never true again until it is back at 0. *)
Lemma clearDue_negative (i : Z) : i < 0 → clearDue i = false.
Proof.
  intros Hi. unfold clearDue. apply Z.eqb_neq.
  assert (Hb : Z.rem i 12 ≤ 0) by (apply Z.rem_nonpos; lia). lia.
Qed.

Example wrapInt_at_limit : wrapInt (2 ^ 63 - 1 + 1) = - 2 ^ 63.
Proof. reflexivity. Qed.

(** * Further properties *)

(** ** The footer composer: content, order and number of the lines *)

Lemma flat_app (l1 l2 : list string) : flat (l1 ++ l2) = flat l1 +:+ flat l2.
Proof.
  induction l1 as [|x l1 IH]; [reflexivity|].
  change (flat ((x :: l1) ++ l2)) with (x +:+ flat (l1 ++ l2)).
  change (flat (x :: l1)) with (x +:+ flat l1).
  now rewrite IH, append_assoc.
Qed.

(** The pieces of [strings.Split(text, " ")], each followed by a space, are
    the text followed by a space. *)
Lemma spaced_SplitSpace (text : string) :
  spaced (GoStrings.SplitSpace text) = text +:+ " ".
Proof.
  induction text as [|c text IH]; [reflexivity|].
  cbn [GoStrings.SplitSpace]. destruct (Ascii.eqb_spec c " "%char) as [-> | Hc].
  - cbn [spaced]. now rewrite IH.
  - destruct (GoStrings.SplitSpace text) as [|w ws].
    { apply (f_equal len) in IH. rewrite len_append in IH.
      pose proof (len_nonneg text). change (len " ") with 1 in IH.
      change (len (spaced [])) with 0 in IH. lia. }
    cbn [spaced] in *. now rewrite (append_cons c w), (append_cons c text), IH.
Qed.

Lemma wrapStep_laidOut (width : Z) (st : wrapState) (word : string) :
  laidOut (wrapStep width st word) = laidOut st +:+ word +:+ " "
  ∧ 0 < len (currentLine (wrapStep width st word)).
Proof.
  unfold wrapStep, laidOut.
  destruct (currentLen st + len word >? width); cbn [ret currentLine].
  - rewrite flat_app. cbn [flat]. rewrite append_empty_r, !len_append.
    split; [reflexivity|]. pose proof (len_nonneg word). change (len " ") with 1.
    change (len "") with 0. lia.
  - rewrite !len_append, append_assoc. split; [reflexivity|].
    pose proof (len_nonneg word). pose proof (len_nonneg (currentLine st)).
    change (len " ") with 1. lia.
Qed.

Lemma wrapFold_laidOut (width : Z) (ws : list string) : ∀ st : wrapState,
  0 < len (currentLine st) →
  laidOut (fold_left (wrapStep width) ws st) = laidOut st +:+ spaced ws
  ∧ 0 < len (currentLine (fold_left (wrapStep width) ws st)).
Proof.
  induction ws as [|w ws IH]; intros st Hpos.
  - cbn. now rewrite append_empty_r.
  - cbn [fold_left spaced]. destruct (wrapStep_laidOut width st w) as [Hl Hp].
    destruct (IH _ Hp) as [Hl' Hp']. split; [|exact Hp'].
    now rewrite Hl', Hl, !append_assoc.
Qed.

(** The open line of the loop is never empty, so the last [if] of
    [wrapFooterText] always appends it. *)
Lemma wrapFooterText_unfold (label text : string) (width : Z) :
  wrapFooterText label text width
  = rev (ret (fold_left (wrapStep width) (GoStrings.SplitSpace text) (wrapInit label))
         ++ [currentLine (fold_left (wrapStep width) (GoStrings.SplitSpace text)
                                    (wrapInit label))]).
Proof.
  unfold wrapFooterText.
  assert (Hinit : 0 < len (currentLine (wrapInit label))).
  { cbn [wrapInit currentLine]. rewrite !len_append. pose proof (len_nonneg label).
    change (len "[green]") with 7. change (len ":[white] ") with 9. lia. }
  destruct (wrapFold_laidOut width (GoStrings.SplitSpace text) _ Hinit) as [_ Hpos].
  apply Z.gtb_lt in Hpos. now rewrite Hpos.
Qed.

(** Read from the last returned line to the first, the lines are the label
    between its directives, the value and one space: no byte of the value
    is lost, repeated or moved, whatever the width. *)
Theorem wrapFooterText_keeps_text (label text : string) (width : Z) :
  flat (rev (wrapFooterText label text width)) = labelPrefix label +:+ text +:+ " ".
Proof.
  rewrite wrapFooterText_unfold, rev_involutive, flat_app. cbn [flat].
  rewrite append_empty_r.
  assert (Hinit : 0 < len (currentLine (wrapInit label))).
  { cbn [wrapInit currentLine]. rewrite !len_append. pose proof (len_nonneg label).
    change (len "[green]") with 7. change (len ":[white] ") with 9. lia. }
  destruct (wrapFold_laidOut width (GoStrings.SplitSpace text) _ Hinit) as [Hl _].
  unfold laidOut in Hl. rewrite Hl. cbn [wrapInit ret currentLine flat].
  now rewrite spaced_SplitSpace.
Qed.

Lemma wrapFold_label_first (label : string) (width : Z) (ws : list string) :
  ∀ st : wrapState,
  (∃ rest tail, ret st ++ [currentLine st] = (labelPrefix label +:+ rest) :: tail) →
  ∃ rest tail,
    ret (fold_left (wrapStep width) ws st) ++ [currentLine (fold_left (wrapStep width) ws st)]
    = (labelPrefix label +:+ rest) :: tail.
Proof.
  induction ws as [|w ws IH]; intros st Hst; [exact Hst|].
  cbn [fold_left]. apply IH. destruct Hst as (rest & tail & Hst).
  unfold wrapStep. destruct (currentLen st + len w >? width); cbn [ret currentLine].
  - rewrite Hst. now exists rest, (tail ++ ["" +:+ w +:+ " "]).
  - destruct (ret st) as [|l ls].
    + cbn [Datatypes.app] in *. injection Hst as -> <-.
      exists (rest +:+ w +:+ " "), []. now rewrite !append_assoc.
    + cbn [Datatypes.app] in *. injection Hst as -> <-.
      now exists rest, (ls ++ [currentLine st +:+ w +:+ " "]).
Qed.

(** The result is never empty, and its last element, the line the frame
    shows first, is the one that opens with the label between its colour
    directives. *)
Theorem wrapFooterText_label_line_last (label text : string) (width : Z) :
  ∃ lines rest, wrapFooterText label text width = lines ++ [labelPrefix label +:+ rest].
Proof.
  rewrite wrapFooterText_unfold.
  destruct (wrapFold_label_first label width (GoStrings.SplitSpace text) (wrapInit label))
    as (rest & tail & ->).
  - exists "", []. cbn [wrapInit ret currentLine Datatypes.app]. unfold labelPrefix.
    now rewrite append_empty_r.
  - exists (rev tail), rest. reflexivity.
Qed.

Lemma wrapFold_fits (width : Z) (ws : list string) : ∀ st : wrapState,
  currentLen st + len (spaced ws) ≤ width + 1 →
  fold_left (wrapStep width) ws st
  = WrapState (ret st) (currentLine st +:+ spaced ws) (currentLen st + len (spaced ws)).
Proof.
  induction ws as [|w ws IH]; intros [r cl n] Hfit.
  - cbn. rewrite append_empty_r. change (len "") with 0. now rewrite Z.add_0_r.
  - cbn [fold_left spaced currentLen] in *. rewrite !len_append in Hfit.
    change (len " ") with 1 in Hfit.
    pose proof (len_nonneg (spaced ws)). pose proof (len_nonneg w).
    unfold wrapStep. cbn [currentLen ret currentLine].
    destruct (Z.gtb_spec (n + len w) width) as [Hgt | _]; [lia|].
    rewrite IH; cbn [currentLen ret currentLine]; [|lia].
    rewrite !len_append, !append_assoc. change (len " ") with 1. f_equal. lia.
Qed.

(** A value that fits beside the label gives one line: the label, the
    value and one space. *)
Theorem wrapFooterText_one_line (label text : string) (width : Z) :
  len label + 2 + len text ≤ width →
  wrapFooterText label text width = [labelPrefix label +:+ text +:+ " "].
Proof.
  intros Hfit. rewrite wrapFooterText_unfold, wrapFold_fits.
  - cbn [ret currentLine wrapInit Datatypes.app rev]. now rewrite spaced_SplitSpace.
  - cbn [wrapInit currentLen]. rewrite spaced_SplitSpace, len_append.
    change (len " ") with 1. lia.
Qed.

Lemma wrapFooterText_one_line_witness :
  wrapFooterText "IP Address(es)" "10.0.0.5/24, 192.168.1.20/24" 80
  = ["[green]IP Address(es):[white] 10.0.0.5/24, 192.168.1.20/24 "].
Proof.
  apply (wrapFooterText_one_line "IP Address(es)" "10.0.0.5/24, 192.168.1.20/24" 80).
  vm_compute. discriminate.
Defined.

Lemma wrapFold_no_room (width : Z) (ws : list string) : ∀ st : wrapState,
  width ≤ 0 → 1 ≤ currentLen st →
  ret (fold_left (wrapStep width) ws st) ++ [currentLine (fold_left (wrapStep width) ws st)]
  = ret st ++ [currentLine st] ++ ((λ w, w +:+ " ") <$> ws).
Proof.
  induction ws as [|w ws IH]; intros st Hw Hlen; [reflexivity|].
  cbn [fold_left]. pose proof (len_nonneg w).
  assert (Hstep : wrapStep width st w
                  = WrapState (ret st ++ [currentLine st]) (w +:+ " ") (0 + len w + 1)).
  { unfold wrapStep. destruct (Z.gtb_spec (currentLen st + len w) width) as [_ | Hle]; [|lia].
    reflexivity. }
  rewrite Hstep, IH; cbn [ret currentLine currentLen]; [|lia..].
  cbn [fmap list_fmap Datatypes.app]. now rewrite <- !app_assoc.
Qed.

(** With no room at all (a width of zero or less, as a screen reports
    before it has a size) nothing is lost: the label and every word get a
    line of their own. *)
Theorem wrapFooterText_no_room (label text : string) (width : Z) :
  width ≤ 0 →
  wrapFooterText label text width
  = rev (labelPrefix label :: ((λ w, w +:+ " ") <$> GoStrings.SplitSpace text)).
Proof.
  intros Hw. rewrite wrapFooterText_unfold, wrapFold_no_room; [reflexivity | exact Hw |].
  cbn [wrapInit currentLen]. pose proof (len_nonneg label). lia.
Qed.

Lemma wrapFooterText_no_room_witness :
  wrapFooterText "IP" "10.0.0.5/24, fd00::1/64" 0
  = ["fd00::1/64 "; "10.0.0.5/24, "; "[green]IP:[white] "].
Proof.
  apply (wrapFooterText_no_room "IP" "10.0.0.5/24, fd00::1/64" 0). lia.
Defined.

Lemma wrapFold_count (width : Z) (ws : list string) : ∀ st : wrapState,
  (length (ret (fold_left (wrapStep width) ws st)) ≤ length (ret st) + length ws)%nat.
Proof.
  induction ws as [|w ws IH]; intros st; [cbn; lia|].
  cbn [fold_left length]. etrans; [apply IH|].
  unfold wrapStep. destruct (currentLen st + len w >? width); cbn [ret].
  - rewrite length_app. cbn. lia.
  - lia.
Qed.

Lemma SplitSpace_length (text : string) :
  (length (GoStrings.SplitSpace text) ≤ String.length text + 1)%nat.
Proof.
  induction text as [|c text IH]; [cbn; lia|].
  cbn [GoStrings.SplitSpace String.length]. destruct (Ascii.eqb c " ").
  - cbn [length]. lia.
  - destruct (GoStrings.SplitSpace text); cbn [length] in *; lia.
Qed.

(** There is at least one line and at most one more than the value has
    words, so at most two more than it has bytes. *)
Theorem wrapFooterText_line_count (label text : string) (width : Z) :
  (1 ≤ length (wrapFooterText label text width)
   ≤ length (GoStrings.SplitSpace text) + 1)%nat
  ∧ (length (wrapFooterText label text width) ≤ String.length text + 2)%nat.
Proof.
  rewrite wrapFooterText_unfold, length_rev, length_app. cbn [length].
  pose proof (wrapFold_count width (GoStrings.SplitSpace text) (wrapInit label)) as Hc.
  pose proof (SplitSpace_length text). cbn [wrapInit ret length] in Hc. lia.
Qed.

(** An empty value still gives the label line, with the space of the one
    empty word behind it; if the label does not fit the width, that space
    is put on a line of its own. *)
Theorem wrapFooterText_empty_value (label : string) (width : Z) :
  wrapFooterText label "" width
  = if len label + 2 >? width then [" "; labelPrefix label] else [labelPrefix label +:+ " "].
Proof.
  rewrite wrapFooterText_unfold. cbn [GoStrings.SplitSpace fold_left].
  unfold wrapStep. cbn [wrapInit currentLen]. change (len "") with 0.
  rewrite Z.add_0_r. destruct (len label + 2 >? width); reflexivity.
Qed.

(** ** The address filter: composition *)

Lemma ipFold_acc (addrs acc : list string) :
  fold_left ipStep addrs acc = acc ++ fold_left ipStep addrs [].
Proof.
  destruct (Filtered_total addrs) as [kept HF].
  now rewrite (ipFold_Filtered addrs acc kept HF), (ipFold_Filtered addrs [] kept HF).
Qed.

(** Filtering the addresses of two sets of interfaces one after the other
    is filtering each set and putting the results together. *)
Theorem getIPAddresses_app (addrs1 addrs2 : list string) :
  getIPAddresses (inl (addrs1 ++ addrs2))
  = getIPAddresses (inl addrs1) ++ getIPAddresses (inl addrs2).
Proof. cbn [getIPAddresses]. now rewrite fold_left_app, ipFold_acc. Qed.

Lemma Filtered_kept (addrs kept : list string) :
  Filtered addrs kept →
  Filtered kept kept ∧ (length kept ≤ length addrs)%nat ∧ ∀ a, In a kept → In a addrs.
Proof.
  induction 1 as [|a l r Hex _ (IH1 & IH2 & IH3) | a l r Hkeep _ (IH1 & IH2 & IH3)].
  - repeat split; [constructor | lia | now intros].
  - split; [exact IH1|]. split; [cbn; lia|]. intros b Hb. right. now apply IH3.
  - split; [now constructor|]. split; [cbn; lia|].
    intros b [<- | Hb]; [now left | right; now apply IH3].
Qed.

(** Filtering a filtered list changes nothing; the result is never longer
    than the enumeration and holds only addresses that were enumerated. *)
Theorem getIPAddresses_idempotent (addrs : list string) :
  getIPAddresses (inl (getIPAddresses (inl addrs))) = getIPAddresses (inl addrs)
  ∧ (length (getIPAddresses (inl addrs)) ≤ length addrs)%nat
  ∧ ∀ a, In a (getIPAddresses (inl addrs)) → In a addrs.
Proof.
  destruct (Filtered_total addrs) as [kept HF].
  destruct (Filtered_kept addrs kept HF) as (Hkk & Hlen & Hin).
  cbn [getIPAddresses]. rewrite (ipFold_Filtered addrs [] kept HF). cbn [Datatypes.app].
  now rewrite (ipFold_Filtered kept [] kept Hkk).
Qed.

(** ** The log sink: what a caller can rely on *)


(** A nil error means everything was written: the count is the length of
    the original chunk, [os.Stdout] got exactly the chunk, and the log pane
    got the colourized chunk. *)
Theorem Write_nil_error_is_complete (body mirror : writeOutcome) (t t' : tui)
    (stdout out p : string) (n : Z) :
  Write body mirror t stdout p = Ok (t', out, (n, None)) →
  n = len p ∧ out = stdout +:+ p
  ∧ ∃ tv, textView t = Some tv ∧ t' = withBuffer t tv (tvBuffer tv +:+ colorize p).
Proof.
  unfold Write. destruct (textView t) as [tv|]; [|discriminate].
  destruct body as [|k e]; cbn [Fprint]; [|discriminate].
  destruct mirror as [|k e]; cbn [Fprint]; [|discriminate].
  intros [= <- <- <-]. repeat split. now exists tv.
Qed.

Lemma Write_nil_error_is_complete_witness :
  5 = len "hello" ∧ "hello" = "" +:+ "hello"
  ∧ ∃ tv, textView demoTui = Some tv
          ∧ withBuffer demoTui (MkTextView "" true false true true) "hello"
            = withBuffer demoTui tv (tvBuffer tv +:+ colorize "hello").
Proof.
  apply (Write_nil_error_is_complete WriteOk WriteOk demoTui
           (withBuffer demoTui (MkTextView "" true false true true) "hello")
           "" "hello" "hello" 5).
  reflexivity.
Defined.





(** ** The frame engine: what a redraw keeps and what it shows *)

(** The application footer lists every entry of the application map once,
    as name(version), in ascending byte order, whatever the order in which
    Go visits the map. *)
Theorem applicationList_sorted (e : Env) (iter : MapIter) (s : State) :
  LoadOrCreate e = inl s → validIter iter →
  Sorted String.le (applicationList e iter)
  ∧ applicationList e iter
    ≡ₚ (λ '(app, info), app +:+ "(" +:+ Version info +:+ ")") <$> map_to_list (Applications s)
  ∧ length (applicationList e iter) = size (Applications s).
Proof.
  intros Hs Hiter. unfold applicationList. rewrite Hs, collect_fmap. cbn [Datatypes.app].
  assert (Hperm : Sort ((λ '(app, info), app +:+ "(" +:+ Version info +:+ ")")
                          <$> iter (Applications s))
                  ≡ₚ (λ '(app, info), app +:+ "(" +:+ Version info +:+ ")")
                       <$> map_to_list (Applications s)).
  { unfold Sort. rewrite merge_sort_Permutation. apply fmap_Permutation, Hiter. }
  split; [apply Sorted_merge_sort; apply _|]. split; [exact Hperm|].
  now rewrite Hperm, length_fmap, length_map_to_list.
Qed.

Lemma applicationList_sorted_witness :
  Sorted String.le (applicationList demoEnv (λ m, reverse (map_to_list m)))
  ∧ applicationList demoEnv (λ m, reverse (map_to_list m))
    ≡ₚ (λ '(app, info), app +:+ "(" +:+ Version info +:+ ")")
         <$> map_to_list (Applications demoState)
  ∧ length (applicationList demoEnv (λ m, reverse (map_to_list m)))
    = size (Applications demoState).
Proof.
  apply (applicationList_sorted demoEnv (λ m, reverse (map_to_list m)) demoState).
  - reflexivity.
  - intros m. apply reverse_Permutation.
Defined.



(** What [Write] appends and returns depends on the log pane, on
    [os.Stdout] and on the chunk only. *)
Lemma Write_shape (body mirror : writeOutcome) (tv : TextView) (stdout p : string) :
  ∃ buf out r, ∀ t, textView t = Some tv →
    Write body mirror t stdout p = Ok (withBuffer t tv buf, out, r).
Proof.
  destruct (Fprint body (tvBuffer tv) (colorize p)) as [buf [num [eb|]]] eqn:Hb.
  - exists buf, stdout, (num, Some eb). intros t Ht. unfold Write. now rewrite Ht, Hb.
  - destruct (Fprint mirror stdout p) as [o rr] eqn:Hm.
    exists buf, o, rr. intros t Ht. unfold Write. now rewrite Ht, Hb, Hm.
Qed.

Lemma redrawScreen_withBuffer (e : Env) (iter : MapIter) (t tr : tui)
    (tv : TextView) (buf : string) :
  textView t = Some tv → redrawScreen e iter t = Ok tr →
  redrawScreen e iter (withBuffer t tv buf) = Ok (withBuffer tr tv buf)
  ∧ textView tr = Some tv.
Proof.
  intros Htv. unfold redrawScreen, withBuffer. cbn [frame screen app textView pages].
  rewrite Htv. destruct (frame t) eqn:Hf; [|intros [= <-]; now rewrite Hf, Htv].
  destruct (screen t) eqn:Hs; [|discriminate]. destruct (app t); [|discriminate].
  intros [= <-]. cbn. now rewrite ?Hs, ?Htv.
Qed.

(** The log sink and the redraw work on different parts of the instance:
    writing a chunk and then redrawing gives the same instance as redrawing
    and then writing the chunk. *)
Theorem Write_redrawScreen_commute (body mirror : writeOutcome) (e : Env) (iter : MapIter)
    (t tw tr : tui) (stdout out p : string) (r : Z * option error) :
  Write body mirror t stdout p = Ok (tw, out, r) →
  redrawScreen e iter t = Ok tr →
  ∃ t', redrawScreen e iter tw = Ok t' ∧ Write body mirror tr stdout p = Ok (t', out, r).
Proof.
  intros Hw Hr.
  destruct (textView t) as [tv|] eqn:Htv; [|unfold Write in Hw; now rewrite Htv in Hw].
  destruct (Write_shape body mirror tv stdout p) as (buf & o & rr & Hshape).
  rewrite (Hshape t Htv) in Hw. injection Hw as <- <- <-.
  destruct (redrawScreen_withBuffer e iter t tr tv buf Htv Hr) as [Hr' Htv'].
  exists (withBuffer tr tv buf). split; [exact Hr' | exact (Hshape tr Htv')].
Qed.

Lemma Write_redrawScreen_commute_witness :
  ∃ t', redrawScreen demoFailEnv map_to_list
          (withBuffer demoTui (MkTextView "" true false true true) "up") = Ok t'
        ∧ Write WriteOk WriteOk
            (MkTui (Some (MkApplication 1))
               (Some (MkFrame
                  [FrameText "Incus OS [exit status 1]" true AlignCenter ColorWhite;
                   FrameText "2026-11-01 09:05 UTC" true AlignRight ColorWhite;
                   footerText "[green]IP Address(es):[white] route ip+net: netlinkrib: too many open files ";
                   footerText "[green]Installed application(s):[white]  "]
                  (Some TextViewPrimitive) (0, 0, 1, 1, 0, 0)))
               (Some ["frame"]) (Some (MkScreen (80, 25)))
               (Some (MkTextView "" true false true true)))
            "" "up"
          = Ok (t', "up", (2, None)).
Proof.
  apply (Write_redrawScreen_commute WriteOk WriteOk demoFailEnv map_to_list demoTui
           (withBuffer demoTui (MkTextView "" true false true true) "up")
           (MkTui (Some (MkApplication 1))
               (Some (MkFrame
                  [FrameText "Incus OS [exit status 1]" true AlignCenter ColorWhite;
                   FrameText "2026-11-01 09:05 UTC" true AlignRight ColorWhite;
                   footerText "[green]IP Address(es):[white] route ip+net: netlinkrib: too many open files ";
                   footerText "[green]Installed application(s):[white]  "]
                  (Some TextViewPrimitive) (0, 0, 1, 1, 0, 0)))
               (Some ["frame"]) (Some (MkScreen (80, 25)))
               (Some (MkTextView "" true false true true)))
           "" "up" "up" (2, None)).
  - reflexivity.
  - vm_compute. reflexivity.
Defined.

(** ** The singleton: one construction at most *)

(** After a call that constructed the instance without error every call
    returns the pointer to that same instance and constructs nothing. *)
Theorem GetTUI_singleton (c : ConsoleEnv) (σ : Store) (t : tui) (cs : list ConsoleEnv) :
  tuiInstance σ = None →
  newTUI c = (t, None) →
  GetTUIs (c :: cs) σ
  = ((λ _, (Some (length (heap σ)), None)) <$> (c :: cs),
     MkStore (heap σ ++ [t]) (Some (length (heap σ))))
  ∧ (heap σ ++ [t]) !! length (heap σ) = Some t.
Proof.
  intros Hnil Hnew. split; [|apply list_lookup_middle; reflexivity].
  cbn [GetTUIs]. unfold GetTUI at 1. rewrite Hnil, Hnew.
  rewrite (GetTUIs_set cs _ (length (heap σ))) by reflexivity. reflexivity.
Qed.

Lemma GetTUI_singleton_witness :
  GetTUIs [demoConsole; demoNoConsole; demoConsole] emptyStore
  = ((λ _, (Some 0%nat, None)) <$> [demoConsole; demoNoConsole; demoConsole],
     MkStore ([] ++ [demoTui]) (Some 0%nat))
  ∧ ([] ++ [demoTui]) !! 0%nat = Some demoTui.
Proof.
  apply (GetTUI_singleton demoConsole emptyStore demoTui [demoNoConsole; demoConsole]);
    reflexivity.
Defined.

(** A store in which [tuiInstance], if set, points to an allocated
    instance. *)
Lemma GetTUI_valid (c : ConsoleEnv) (σ : Store) :
  (∀ p, tuiInstance σ = Some p → (p < length (heap σ))%nat) →
  (∀ p, tuiInstance (GetTUI c σ).2 = Some p → (p < length (heap (GetTUI c σ).2))%nat)
  ∧ (∀ p, (GetTUI c σ).1.1 = Some p → tuiInstance (GetTUI c σ).2 = Some p)
  ∧ is_Some (tuiInstance (GetTUI c σ).2)
  ∧ (length (heap (GetTUI c σ).2)
     = length (heap σ) + match tuiInstance σ with Some _ => 0 | None => 1 end)%nat.
Proof.
  intros Hvalid. unfold GetTUI. destruct (tuiInstance σ) as [q|] eqn:Hq.
  - cbn. rewrite Hq. split; [exact Hvalid|]. split; [now intros p [= <-]|].
    split; [now exists q | lia].
  - destruct (newTUI c) as [t [e|]]; cbn; rewrite length_app; cbn.
    + split; [intros p [= <-]; lia|]. split; [discriminate|].
      split; [now eexists | lia].
    + split; [intros p [= <-]; lia|]. split; [now intros p [= <-]|].
      split; [now eexists | lia].
Qed.

(** However many calls are made from the start of the process and whatever
    they find, at most one instance is ever allocated, and every pointer
    that is returned is a pointer to it. *)
Theorem GetTUIs_one_instance (cs : list ConsoleEnv) :
  (length (heap (GetTUIs cs emptyStore).2) ≤ 1)%nat
  ∧ ∀ r p, In r (GetTUIs cs emptyStore).1 → r.1 = Some p →
      p = 0%nat ∧ is_Some (heap (GetTUIs cs emptyStore).2 !! p).
Proof.
  destruct cs as [|c cs]; [cbn; split; [lia | now intros]|].
  cbn [GetTUIs].
  pose proof (GetTUI_valid c emptyStore) as (Hv & Hret & [q Hq] & Hlen);
    [intros p; discriminate|].
  destruct (GetTUI c emptyStore) as [r0 σ1] eqn:H1. cbn [fst snd] in *. cbn in Hlen.
  assert (q = 0%nat) as -> by (specialize (Hv q Hq); lia).
  rewrite (GetTUIs_set cs σ1 0 Hq). cbn [fst snd]. split; [lia|].
  assert (Hsome : is_Some (heap σ1 !! 0%nat)) by (apply lookup_lt_is_Some; lia).
  intros r p [<- | Hin] Hp.
  - specialize (Hret p Hp). rewrite Hq in Hret. injection Hret as <-. auto.
  - apply list_elem_of_In, list_elem_of_fmap in Hin as (c' & -> & _).
    cbn in Hp. injection Hp as <-. auto.
Qed.

(** ** A constructed and a partial instance in use *)

(** An instance that [newTUI] returned without error, with the screen its
    constructor promised, can be written to, redrawn, covered with a modal
    and uncovered: none of the calls dereferences nil. *)
Theorem newTUI_instance_is_usable (c : ConsoleEnv) (t : tui)
    (body mirror : writeOutcome) (e : Env) (iter : MapIter)
    (stdout p title msg : string) (progress maxProgress : Z) :
  newTUI c = (t, None) → is_Some (screen t) →
  constructed t
  ∧ Write body mirror t stdout p ≠ Panic
  ∧ redrawScreen e iter t ≠ Panic
  ∧ DisplayModal title msg progress maxProgress t ≠ Panic
  ∧ RemoveModal t ≠ Panic.
Proof.
  unfold newTUI. destruct (newTtyMultiplexer c consolePaths) as [ttys|e0]; [|discriminate].
  destruct (NewTerminfoScreenFromTty c ttys) as [scr [e1|]]; [discriminate|].
  intros [= <-] [s Hs]. cbn in Hs. subst scr.
  split; [repeat split; now eexists|].
  split; [unfold Write; cbn; destruct (Fprint body _ _) as [? [? [?|]]];
          [discriminate | destruct (Fprint mirror _ _); discriminate]|].
  repeat split; discriminate.
Qed.

Lemma newTUI_instance_is_usable_witness :
  constructed demoTui
  ∧ Write WriteOk WriteOk demoTui "" "hello" ≠ Panic
  ∧ redrawScreen demoEnv map_to_list demoTui ≠ Panic
  ∧ DisplayModal "Update" "Downloading" 3 10 demoTui ≠ Panic
  ∧ RemoveModal demoTui ≠ Panic.
Proof.
  apply (newTUI_instance_is_usable demoConsole demoTui WriteOk WriteOk demoEnv map_to_list
           "" "hello" "Update" "Downloading" 3 10).
  - reflexivity.
  - eexists. reflexivity.
Defined.

(** The partial instance that a failed construction leaves behind (and that
    [GetTUI] hands out afterwards) has no log pane and no pages: a redraw
    does nothing to it, while [Write], [DisplayModal] and [RemoveModal]
    dereference nil. *)
Theorem newTUI_partial_instance_in_use (c : ConsoleEnv) (partial : tui) (err : error)
    (body mirror : writeOutcome) (e : Env) (iter : MapIter)
    (stdout p title msg : string) (progress maxProgress : Z) :
  newTUI c = (partial, Some err) →
  redrawScreen e iter partial = Ok partial
  ∧ Write body mirror partial stdout p = Panic
  ∧ DisplayModal title msg progress maxProgress partial = Panic
  ∧ RemoveModal partial = Panic.
Proof.
  intros Hnew.
  destruct (newTUI_failed_is_partial c partial err Hnew) as (Ha & Hf & Hp & Htv).
  unfold redrawScreen, Write, DisplayModal, RemoveModal. rewrite Hf, Htv, Hp.
  repeat split. now destruct (screen partial).
Qed.

Lemma newTUI_partial_instance_in_use_witness :
  redrawScreen demoEnv map_to_list (MkTui None None None None None)
  = Ok (MkTui None None None None None)
  ∧ Write WriteOk WriteOk (MkTui None None None None None) "" "level=ERROR no console" = Panic
  ∧ DisplayModal "Install" "Copying" 1 4 (MkTui None None None None None) = Panic
  ∧ RemoveModal (MkTui None None None None None) = Panic.
Proof.
  apply (newTUI_partial_instance_in_use demoNoConsole (MkTui None None None None None)
           "no tty devices could be opened").
  reflexivity.
Defined.

(** ** The redraw loop: what it does to the instance *)



Lemma runLoop_draws_from (n : nat) : ∀ (world : nat → TickEnv) (st : LoopState),
  is_Some (frame (loopT st)) → is_Some (screen (loopT st)) → is_Some (app (loopT st)) →
  ∃ st', runLoop world n st = Ok st'
         ∧ draws (loopT st') = (draws (loopT st) + n)%nat
         ∧ textView (loopT st') = textView (loopT st)
         ∧ pages (loopT st') = pages (loopT st).
Proof.
  induction n as [|n IH]; intros world st Hf Hs Ha.
  - exists st. cbn. repeat split. lia.
  - destruct Hf as [f Hf], Hs as [scr Hs], Ha as [a Ha].
    cbn [runLoop]. unfold loopBody.
    rewrite (redrawScreen_rebuilds _ _ _ f scr a Hf Hs Ha).
    match goal with |- context [runLoop ?w n ?s] =>
      destruct (IH w s) as (st' & Hrun & Hd & Htv & Hp) end;
      [cbn; now eexists | cbn; rewrite Hs; now eexists | cbn; now eexists |].
    exists st'. split; [exact Hrun|]. cbn in Hd, Htv, Hp.
    split; [unfold draws in *; rewrite Ha; cbn in *; lia|]. now split.
Qed.

(** On a constructed instance every pass asks for exactly one repaint and
    leaves the log pane and the pages alone: after [n] passes the
    application has been asked for [n] more repaints. *)
Theorem runLoop_one_repaint_per_pass (world : nat → TickEnv) (n : nat) (t : tui) :
  is_Some (frame t) → is_Some (screen t) → is_Some (app t) →
  ∃ st, runLoop world n (loopStart t) = Ok st
        ∧ draws (loopT st) = (draws t + n)%nat
        ∧ textView (loopT st) = textView t
        ∧ pages (loopT st) = pages t.
Proof. intros Hf Hs Ha. exact (runLoop_draws_from n world (loopStart t) Hf Hs Ha). Qed.

Lemma runLoop_one_repaint_per_pass_witness :
  ∃ st, runLoop demoWorld 24 (loopStart demoTui) = Ok st
        ∧ draws (loopT st) = (draws demoTui + 24)%nat
        ∧ textView (loopT st) = textView demoTui
        ∧ pages (loopT st) = pages demoTui.
Proof.
  apply (runLoop_one_repaint_per_pass demoWorld 24 demoTui); eexists; reflexivity.
Defined.

(** Once the loop variable has wrapped to a negative value, a pass no
    longer writes to the console: Go's remainder of a negative number is
    never 1. *)
Theorem loopBody_no_clear_when_negative (te : TickEnv) (st st' : LoopState) :
  loopI st < 0 → loopBody te st = Ok st' →
  loopTrace st' = loopTrace st ++ [Redraw; Sleep 5].
Proof.
  intros Hneg. unfold loopBody. rewrite (clearDue_negative _ Hneg).
  destruct (redrawScreen _ _ _); [|discriminate]. now intros [= <-].
Qed.

Lemma loopBody_no_clear_when_negative_witness :
  loopTrace (MkLoop (- 2 ^ 63 + 12) (MkTui None None None None None) [Redraw; Sleep 5])
  = [] ++ [Redraw; Sleep 5].
Proof.
  apply (loopBody_no_clear_when_negative (demoWorld 0)
           (MkLoop (- 2 ^ 63 + 11) (MkTui None None None None None) [])
           (MkLoop (- 2 ^ 63 + 12) (MkTui None None None None None) [Redraw; Sleep 5]));
    reflexivity.
Defined.

(** ** The modal layer *)

(** On a console of non-negative size the box of the modal is three
    quarters of the width and half of the height, rounded down, so it fits
    the console; the progress bar is there exactly when [maxProgress] is
    positive, and holds the two numbers as given. *)
Theorem buildModal_fits (scr : Screen) (title msg : string) (progress maxProgress w h : Z) :
  Size scr = (w, h) → 0 ≤ w → 0 ≤ h →
  0 ≤ modalWidth (buildModal scr title msg progress maxProgress) ≤ w
  ∧ 0 ≤ modalHeight (buildModal scr title msg progress maxProgress) ≤ h
  ∧ 4 * modalWidth (buildModal scr title msg progress maxProgress) ≤ 3 * w
      < 4 * modalWidth (buildModal scr title msg progress maxProgress) + 4
  ∧ 2 * modalHeight (buildModal scr title msg progress maxProgress) ≤ h
      < 2 * modalHeight (buildModal scr title msg progress maxProgress) + 2
  ∧ modalProgressBar (buildModal scr title msg progress maxProgress)
    = if maxProgress >? 0 then Some (MkProgressBar maxProgress progress) else None.
Proof.
  intros Hsz Hw Hh. unfold buildModal. rewrite Hsz.
  assert (Hq : Z.quot (w * 3) 4 = (w * 3) / 4) by (apply Z.quot_div_nonneg; lia).
  assert (Hq' : Z.quot h 2 = h / 2) by (apply Z.quot_div_nonneg; lia).
  destruct (maxProgress >? 0); cbn [modalWidth modalHeight modalProgressBar];
    rewrite Hq, Hq'; (split; [|split; [|split; [|split; [|reflexivity]]]]);
    Z.to_euclidean_division_equations; lia.
Qed.

Lemma buildModal_fits_witness :
  0 ≤ modalWidth (buildModal (MkScreen (80, 25)) "Update" "Downloading" 3 10) ≤ 80
  ∧ 0 ≤ modalHeight (buildModal (MkScreen (80, 25)) "Update" "Downloading" 3 10) ≤ 25
  ∧ 4 * modalWidth (buildModal (MkScreen (80, 25)) "Update" "Downloading" 3 10) ≤ 3 * 80
      < 4 * modalWidth (buildModal (MkScreen (80, 25)) "Update" "Downloading" 3 10) + 4
  ∧ 2 * modalHeight (buildModal (MkScreen (80, 25)) "Update" "Downloading" 3 10) ≤ 25
      < 2 * modalHeight (buildModal (MkScreen (80, 25)) "Update" "Downloading" 3 10) + 2
  ∧ modalProgressBar (buildModal (MkScreen (80, 25)) "Update" "Downloading" 3 10)
    = if 10 >? 0 then Some (MkProgressBar 10 3) else None.
Proof.
  apply (buildModal_fits (MkScreen (80, 25)) "Update" "Downloading" 3 10 80 25);
    [reflexivity | lia | lia].
Defined.

(** The message area of the modal is [modalHeight - 4] rows, or
    [modalHeight - 6] with the progress bar below it; it has at least one
    row only on a console of at least 10 lines, or 14 with the bar. *)
Theorem buildModal_message_rows (scr : Screen) (title msg : string)
    (progress maxProgress w h : Z) :
  Size scr = (w, h) → 0 ≤ h →
  ∃ rows,
    modalRows (buildModal scr title msg progress maxProgress)
    = (if maxProgress >? 0 then [rows; 1] else [rows])
    ∧ (0 < rows ↔ (if maxProgress >? 0 then 14 else 10) ≤ h).
Proof.
  intros Hsz Hh. unfold buildModal. rewrite Hsz.
  assert (Hq' : Z.quot h 2 = h / 2) by (apply Z.quot_div_nonneg; lia).
  destruct (maxProgress >? 0); cbn [modalRows]; rewrite Hq'; eexists;
    (split; [reflexivity|]); Z.to_euclidean_division_equations; lia.
Qed.

Lemma buildModal_message_rows_witness :
  ∃ rows,
    modalRows (buildModal (MkScreen (80, 12)) "Update" "Downloading" 3 10)
    = (if 10 >? 0 then [rows; 1] else [rows])
    ∧ (0 < rows ↔ (if 10 >? 0 then 14 else 10) ≤ 12).
Proof.
  apply (buildModal_message_rows (MkScreen (80, 12)) "Update" "Downloading" 3 10 80 12);
    [reflexivity | lia].
Defined.

Lemma pageCount_app (n : string) (l1 l2 : Pages) :
  pageCount n (l1 ++ l2) = (pageCount n l1 + pageCount n l2)%nat.
Proof. unfold pageCount. now rewrite List.filter_app, length_app. Qed.

Lemma pageCount_removeFirst (n m : string) (pg : Pages) :
  pageCount n (removeFirst m pg)
  = if String.eqb n m then Nat.pred (pageCount n pg) else pageCount n pg.
Proof.
  unfold pageCount. induction pg as [|x pg IH]; [now destruct (String.eqb n m)|].
  cbn [removeFirst List.filter]. destruct (String.eqb x m) eqn:Hxm.
  - apply String.eqb_eq in Hxm. subst x. now destruct (String.eqb n m).
  - cbn [List.filter].
    destruct (String.eqb n x) eqn:Hnx, (String.eqb n m) eqn:Hnm; cbn [length]; try now rewrite IH.
    apply String.eqb_eq in Hnx, Hnm. subst. now rewrite String.eqb_refl in Hxm.
Qed.

Lemma removeFirst_absent (m : string) (pg : Pages) :
  ¬ In m pg → removeFirst m pg = pg ∧ removeFirst m (pg ++ [m]) = pg.
Proof.
  induction pg as [|x pg IH]; intros Hin.
  - cbn. now rewrite String.eqb_refl.
  - cbn [removeFirst Datatypes.app]. destruct (String.eqb_spec x m) as [-> | Hxm].
    + exfalso. apply Hin. now left.
    + destruct IH as [-> ->]; [intros H; apply Hin; now right | easy].
Qed.

(** Showing a modal puts the page "modal" on top and asks for a repaint;
    a modal that was shown before is replaced, not stacked; every other
    page, the frame among them, stays, and so do the frame, the screen and
    the log pane. *)
Theorem DisplayModal_replaces (title msg : string) (progress maxProgress : Z)
    (t t' : tui) (m : Modal) (pg : Pages) :
  pages t = Some pg →
  DisplayModal title msg progress maxProgress t = Ok (t', m) →
  ∃ pg', pages t' = Some pg'
    ∧ last pg' = Some "modal"
    ∧ ((pageCount "modal" pg ≤ 1)%nat → pageCount "modal" pg' = 1%nat)
    ∧ (∀ n, n ≠ "modal" → pageCount n pg' = pageCount n pg)
    ∧ frame t' = frame t ∧ screen t' = screen t ∧ textView t' = textView t
    ∧ draws t' = S (draws t).
Proof.
  intros Hp. unfold DisplayModal. rewrite Hp.
  destruct (screen t) as [scr|]; [|discriminate].
  destruct (app t) as [a|] eqn:Ha; [|discriminate].
  intros [= <- _]. exists (AddPage "modal" pg). unfold AddPage. cbn [pages].
  split; [reflexivity|]. split; [apply last_snoc|]. split; [|split].
  - intros Hle. rewrite pageCount_app, pageCount_removeFirst. cbn. lia.
  - intros n Hn. rewrite pageCount_app, pageCount_removeFirst.
    destruct (String.eqb_spec n "modal") as [-> | _]; [contradiction|].
    unfold pageCount at 2. cbn [List.filter].
    destruct (String.eqb_spec n "modal"); [contradiction | cbn; lia].
  - unfold draws. cbn. rewrite Ha. repeat split.
Qed.

Lemma DisplayModal_replaces_witness :
  ∃ pg', pages (MkTui (Some (MkApplication 1)) (frame demoTui) (Some ["frame"; "modal"])
                      (screen demoTui) (textView demoTui)) = Some pg'
    ∧ last pg' = Some "modal"
    ∧ ((pageCount "modal" ["frame"; "modal"] ≤ 1)%nat → pageCount "modal" pg' = 1%nat)
    ∧ (∀ n, n ≠ "modal" → pageCount n pg' = pageCount n ["frame"; "modal"])
    ∧ frame (MkTui (Some (MkApplication 1)) (frame demoTui) (Some ["frame"; "modal"])
                   (screen demoTui) (textView demoTui))
      = frame (MkTui (app demoTui) (frame demoTui) (Some ["frame"; "modal"])
                     (screen demoTui) (textView demoTui))
    ∧ screen (MkTui (Some (MkApplication 1)) (frame demoTui) (Some ["frame"; "modal"])
                    (screen demoTui) (textView demoTui))
      = screen (MkTui (app demoTui) (frame demoTui) (Some ["frame"; "modal"])
                      (screen demoTui) (textView demoTui))
    ∧ textView (MkTui (Some (MkApplication 1)) (frame demoTui) (Some ["frame"; "modal"])
                      (screen demoTui) (textView demoTui))
      = textView (MkTui (app demoTui) (frame demoTui) (Some ["frame"; "modal"])
                        (screen demoTui) (textView demoTui))
    ∧ draws (MkTui (Some (MkApplication 1)) (frame demoTui) (Some ["frame"; "modal"])
                   (screen demoTui) (textView demoTui))
      = S (draws (MkTui (app demoTui) (frame demoTui) (Some ["frame"; "modal"])
                        (screen demoTui) (textView demoTui))).
Proof.
  apply (DisplayModal_replaces "Update" "Second stage" 5 10
           (MkTui (app demoTui) (frame demoTui) (Some ["frame"; "modal"])
                  (screen demoTui) (textView demoTui))
           (MkTui (Some (MkApplication 1)) (frame demoTui) (Some ["frame"; "modal"])
                  (screen demoTui) (textView demoTui))
           (buildModal (MkScreen (80, 25)) "Update" "Second stage" 5 10)
           ["frame"; "modal"]);
    reflexivity.
Defined.

(** Showing a modal over pages that hold none and removing it again gives
    back the instance as it was, but for the one repaint asked for. *)
Theorem DisplayModal_RemoveModal (title msg : string) (progress maxProgress : Z)
    (t : tui) (pg : Pages) (scr : Screen) (a : Application) :
  pages t = Some pg → screen t = Some scr → app t = Some a → ¬ In "modal" pg →
  ∃ t1 m,
    DisplayModal title msg progress maxProgress t = Ok (t1, m)
    ∧ RemoveModal t1
      = Ok (MkTui (Some (Draw a)) (frame t) (pages t) (screen t) (textView t)).
Proof.
  intros Hp Hs Ha Hno. unfold DisplayModal. rewrite Hp, Hs, Ha.
  eexists _, _. split; [reflexivity|].
  unfold RemoveModal, RemovePage, AddPage. cbn [pages app frame screen textView].
  destruct (removeFirst_absent "modal" pg Hno) as [H1 H2]. now rewrite H1, H2.
Qed.

Lemma DisplayModal_RemoveModal_witness :
  ∃ t1 m,
    DisplayModal "Install" "Copying files" 1 4 demoTui = Ok (t1, m)
    ∧ RemoveModal t1
      = Ok (MkTui (Some (Draw (MkApplication 0))) (frame demoTui) (pages demoTui)
                  (screen demoTui) (textView demoTui)).
Proof.
  apply (DisplayModal_RemoveModal "Install" "Copying files" 1 4 demoTui ["frame"]
           (MkScreen (80, 25)) (MkApplication 0)); try reflexivity.
  intros [H | []]. discriminate.
Defined.


